(** * nnose datastore: a shallow embedding of [src/create_datastore.py]

    The [DataStore] class wraps a FAISS inverted-file index together with two
    parallel id stores (label ids and input-token ids).  The embedding keeps
    the Python methods as functions over an explicit world (the instance plus
    the file system), the tensor operations of [search_k] as list functions
    over the reals, and the external libraries (FAISS, the whitening helper,
    the [constants] module) as interfaces. *)

From Stdlib Require Import ZArith String List Bool Reals Lia Lra.
Import ListNotations.

Local Open Scope Z_scope.

(** ** Python exceptions and fallible results *)

Inductive exn : Type :=
| AssertionError (msg : string)
| AttributeError
| IndexError
| RuntimeError
| ValueError
| TypeError
| FileNotFoundError
| IOError.

Inductive result (A : Type) : Type :=
| Ok (a : A)
| Raise (e : exn).

Arguments Ok {A} a.
Arguments Raise {A} e.

Definition is_ok {A} (r : result A) : bool :=
  match r with Ok _ => true | Raise _ => false end.

Definition rbind {A B} (r : result A) (f : A -> result B) : result B :=
  match r with
  | Ok a => f a
  | Raise e => Raise e
  end.

Declare Scope result_scope.
Delimit Scope result_scope with result.
Notation "x <- r ;; k" := (rbind r (fun x => k))
  (at level 61, r at next level, right associativity) : result_scope.
Notation "' pat <- r ;; k" := (rbind r (fun x => match x with pat => k end))
  (at level 61, pat pattern, r at next level, right associativity) : result_scope.

(** Sequencing a fallible function over a list, left to right. *)
Fixpoint mapM {A B} (f : A -> result B) (l : list A) : result (list B) :=
  match l with
  | [] => Ok []
  | a :: l' =>
      (b <- f a ;; bs <- mapM f l' ;; Ok (b :: bs))%result
  end.

(** ** The tensor operations used by [search_k] *)

Module Torch.

(** A tensor of scores is a list of reals, a batch is a list of rows. *)
Definition sum (l : list R) : R := fold_right Rplus 0%R l.

(** [torch.zeros((q, n))] *)
Definition zeros (q : nat) (n : Z) : list (list R) :=
  repeat (repeat 0%R (Z.to_nat n)) q.

(** [store[i]] for one integer index: negative indices count from the end,
    anything outside [-n, n) is an IndexError. *)
Definition getitem (store : list Z) (i : Z) : result Z :=
  let n := Z.of_nat (length store) in
  if (0 <=? i) && (i <? n) then
    match nth_error store (Z.to_nat i) with
    | Some v => Ok v
    | None => Raise IndexError
    end
  else if (- n <=? i) && (i <? 0) then
    match nth_error store (Z.to_nat (n + i)) with
    | Some v => Ok v
    | None => Raise IndexError
    end
  else Raise IndexError.

(** [store[torch.tensor(I)]]: advanced indexing of a one-dimensional store
    by a matrix of indices; the result has the shape of [I]. *)
Definition index (store : list Z) (I : list (list Z)) : result (list (list Z)) :=
  mapM (mapM (getitem store)) I.

(** [torch.softmax(x, dim=-1)] on one row. *)
Definition softmax_row (xs : list R) : list R :=
  map (fun x => (exp x / sum (map exp xs))%R) xs.

Definition softmax (x : list (list R)) : list (list R) :=
  map softmax_row x.

(** [-torch.tensor(D) / T] *)
Definition neg_div (D : list (list R)) (T : R) : list (list R) :=
  map (map (fun dist => (- dist / T)%R)) D.

(** [row[i] += w] *)
Fixpoint add_at (i : nat) (w : R) (row : list R) : list R :=
  match row, i with
  | [], _ => []
  | x :: row', O => (x + w)%R :: row'
  | x :: row', S i' => x :: add_at i' w row'
  end.

(** One row of [self.scatter(1, index, src, reduce="add")]: for every
    position [j] of the index row, [self[index[j]] += src[j]].  An index
    outside [0, len(self)) and an index row longer than the source row are
    RuntimeErrors. *)
Fixpoint scatter_add_row (self : list R) (index : list Z) (src : list R)
         {struct index} : result (list R) :=
  match index, src with
  | [], _ => Ok self
  | i :: index', w :: src' =>
      if (0 <=? i) && (i <? Z.of_nat (length self)) then
        scatter_add_row (add_at (Z.to_nat i) w self) index' src'
      else Raise RuntimeError
  | _ :: _, [] => Raise RuntimeError
  end.

(** [self.scatter(1, index, src, reduce="add")] on a batch: the index may
    not have more rows than [self] or [src]. *)
Fixpoint scatter_add (self : list (list R)) (index : list (list Z))
         (src : list (list R)) {struct index} : result (list (list R)) :=
  match index, self, src with
  | [], _, _ => Ok self
  | irow :: index', srow :: self', wrow :: src' =>
      (row <- scatter_add_row srow irow wrow ;;
       rest <- scatter_add self' index' src' ;;
       Ok (row :: rest))%result
  | _ :: _, _, _ => Raise RuntimeError
  end.

(** The weight that lands on vocabulary position [x]: the sum of the
    source entries whose index is [x]. *)
Fixpoint mass_at (x : Z) (index : list Z) (src : list R) : R :=
  match index, src with
  | i :: index', w :: src' =>
      ((if i =? x then w else 0) + mass_at x index' src')%R
  | _, _ => 0%R
  end.

End Torch.

(** ** Python string and list helpers *)

Module Py.

(** [s.endswith(suffix)] *)
Definition endswith (s suffix : string) : bool :=
  let n := String.length s in
  let m := String.length suffix in
  (m <=? n)%nat && String.eqb (substring (n - m) m s) suffix.

(** [s.split(sep)[0]]: the part of [s] before the first occurrence of
    [sep]; an empty separator is a ValueError. *)
Definition split_head (s sep : string) : result string :=
  if String.eqb sep EmptyString then Raise ValueError
  else match String.index 0 sep s with
       | Some i => Ok (substring 0 i s)
       | None => Ok s
       end.

(** [l[:n]], a negative [n] counting from the end. *)
Definition slice_to {A} (l : list A) (n : Z) : list A :=
  if 0 <=? n then firstn (Z.to_nat n) l
  else firstn (Z.to_nat (Z.of_nat (length l) + n)) l.

(** Reading an attribute that may not have been set yet. *)
Definition attr {A} (a : option A) : result A :=
  match a with
  | Some v => Ok v
  | None => Raise AttributeError
  end.

End Py.

(** ** External collaborators

    FAISS is an external library: the datastore only ever hands key and query
    rows to it, so a row is an abstract [Vec] with a dimension.  Distances
    come back as reals, neighbor ids as integers. *)

Class Faiss : Type := {
  Vec : Type;
  vec_dim : Vec -> nat;
  Index : Type;
  Blob : Type;
  (** [index_cpu_to_gpu(IndexIVFFlat(IndexFlatL2(d), d, n_centroids, L2))]
      with [nprobe] set *)
  IndexIVFFlat_gpu : Z -> Z -> Z -> Index;
  index_train : Index -> list Vec -> result Index;
  index_add : Index -> list Vec -> result Index;
  index_search : Index -> list Vec -> Z -> result (list (list R) * list (list Z));
  index_gpu_to_cpu : Index -> Index;
  index_ntotal : Index -> nat;
  serialize_index : Index -> result Blob;
  deserialize_index : Blob -> result Index
}.

(** [utils.get_projection_matrix] is not part of the source under study: the
    whitening helper and the affine map it produces are parameters. *)
Class Projection (F : Faiss) : Type := {
  Kernel : Type;
  Bias : Type;
  whitening : list Vec -> result (Kernel * Bias);
  (** [kernel[:, :d]] *)
  kernel_columns : Kernel -> Z -> Kernel;
  transform_and_normalize : list Vec -> Kernel -> Bias -> result (list Vec)
}.

(** The [constants] module is not part of the source under study either. *)
Class Constants : Type := {
  INDEX_FILE : string;
  INPUT_ID_FILE : string;
  RAW_FEATURE_KEY_SUFFIX : string;
  RAW_FEATURE_TOKEN_SUFFIX : string;
  RAW_FEATURE_VALUE_SUFFIX : string;
  TOKEN_ID_FILE : string
}.

(** [int(n * (percentage / 100.0))] is a double-precision computation; the
    embedding takes its value as given. *)
Class Float64 : Type := {
  percent_of : nat -> Z -> Z
}.

(** Command-line arguments read by the datastore. *)
Record Args : Type := {
  args_whitening : bool;
  args_dim_reduction : Z
}.

Section Datastore.

Context {F : Faiss} {P : Projection F} {C : Constants} {N : Float64}.

(** *** The instance *)

Record DataStore : Type := {
  d : Z;
  vocab_size : Z;
  index : Index;
  label_id_store : option (list Z);
  input_id_store : option (list Z);
  args : option Args
}.

Definition with_vocab_size (s : DataStore) (v : Z) : DataStore :=
  {| d := d s; vocab_size := v; index := index s;
     label_id_store := label_id_store s;
     input_id_store := input_id_store s; args := args s |}.

Definition with_index (s : DataStore) (ix : Index) : DataStore :=
  {| d := d s; vocab_size := vocab_size s; index := ix;
     label_id_store := label_id_store s;
     input_id_store := input_id_store s; args := args s |}.

Definition with_label_id_store (s : DataStore) (l : list Z) : DataStore :=
  {| d := d s; vocab_size := vocab_size s; index := index s;
     label_id_store := Some l;
     input_id_store := input_id_store s; args := args s |}.

Definition with_input_id_store (s : DataStore) (l : list Z) : DataStore :=
  {| d := d s; vocab_size := vocab_size s; index := index s;
     label_id_store := label_id_store s;
     input_id_store := Some l; args := args s |}.

(** [DataStore.__init__] *)
Definition DataStore_init (dim : Z) (a : option Args) : DataStore :=
  let n_centroids := 4096 in
  {| d := dim;
     vocab_size := -1;
     index := IndexIVFFlat_gpu dim n_centroids 32;
     label_id_store := None;
     input_id_store := None;
     args := a |}.

(** *** The file system

    A directory is the list of its entries in listing order; a path is a
    directory together with a file name. *)

Inductive File : Type :=
| FKeys (ks : list Vec)
| FIds (ids : list Z)
| FKernel (k : Kernel)
| FBias (b : Bias)
| FIndex (b : Blob).

Definition Dir : Type := list (string * File).
Definition FS : Type := list (string * Dir).

Fixpoint assoc {A} (k : string) (l : list (string * A)) : option A :=
  match l with
  | [] => None
  | (k', v) :: l' => if String.eqb k k' then Some v else assoc k l'
  end.

Fixpoint assoc_set {A} (k : string) (v : A) (l : list (string * A))
  : list (string * A) :=
  match l with
  | [] => [(k, v)]
  | (k', v') :: l' =>
      if String.eqb k k' then (k, v) :: l' else (k', v') :: assoc_set k v l'
  end.

Definition fs_listdir (fs : FS) (dir : string) : result (list string) :=
  match assoc dir fs with
  | Some entries => Ok (map fst entries)
  | None => Raise FileNotFoundError
  end.

Definition fs_read (fs : FS) (dir name : string) : result File :=
  match assoc dir fs with
  | Some entries =>
      match assoc name entries with
      | Some f => Ok f
      | None => Raise FileNotFoundError
      end
  | None => Raise FileNotFoundError
  end.

Definition fs_write (fs : FS) (dir name : string) (f : File) : result FS :=
  match assoc dir fs with
  | Some entries => Ok (assoc_set dir (assoc_set name f entries) fs)
  | None => Raise FileNotFoundError
  end.

(** *** Methods as state transformers with exceptions *)

Record World : Type := {
  self : DataStore;
  disk : FS
}.

Definition M (A : Type) : Type := World -> result A * World.

Definition ret {A} (a : A) : M A := fun w => (Ok a, w).

Definition bind {A B} (m : M A) (f : A -> M B) : M B :=
  fun w =>
    match m w with
    | (Ok a, w') => f a w'
    | (Raise e, w') => (Raise e, w')
    end.

Definition lift {A} (r : result A) : M A := fun w => (r, w).

Definition raise {A} (e : exn) : M A := lift (Raise e).

(** [try: m except Exception as e: h e] *)
Definition try_except {A} (m : M A) (h : exn -> M A) : M A :=
  fun w =>
    match m w with
    | (Ok a, w') => (Ok a, w')
    | (Raise e, w') => h e w'
    end.

Definition get_self : M DataStore := fun w => (Ok (self w), w).

Definition modify_self (f : DataStore -> DataStore) : M unit :=
  fun w => (Ok tt, {| self := f (self w); disk := disk w |}).

Definition get_disk : M FS := fun w => (Ok (disk w), w).

Definition put_disk (fs : FS) : M unit :=
  fun w => (Ok tt, {| self := self w; disk := fs |}).

End Datastore.

Declare Scope datastore_scope.
Delimit Scope datastore_scope with M.
Notation "x <- m ;; k" := (bind m (fun x => k))
  (at level 61, m at next level, right associativity) : datastore_scope.
Notation "' pat <- m ;; k" := (bind m (fun x => match x with pat => k end))
  (at level 61, pat pattern, m at next level, right associativity) : datastore_scope.
Notation "m ;; k" := (bind m (fun _ => k))
  (at level 61, right associativity) : datastore_scope.

Section Methods.

Context {F : Faiss} {P : Projection F} {C : Constants} {N : Float64}.

Local Open Scope datastore_scope.

(** *** Library calls that touch the disk *)

(** [torch.save(obj, path)]; a missing parent directory is an error. *)
Definition torch_save (dir name : string) (f : File) : M unit :=
  fs <- get_disk ;;
  fs' <- lift (match fs_write fs dir name f with
               | Ok fs' => Ok fs'
               | Raise _ => Raise RuntimeError
               end) ;;
  put_disk fs'.

(** [torch.load(path)] *)
Definition torch_load (dir name : string) : M File :=
  fs <- get_disk ;;
  lift (fs_read fs dir name).

(** The loaded object is used as a tensor of the expected kind. *)
Definition as_keys (f : File) : result (list Vec) :=
  match f with FKeys ks => Ok ks | _ => Raise TypeError end.

Definition as_ids (f : File) : result (list Z) :=
  match f with FIds ids => Ok ids | _ => Raise TypeError end.

(** [faiss.write_index(index, path)] *)
Definition faiss_write_index (ix : Index) (dir name : string) : M unit :=
  b <- lift (serialize_index ix) ;;
  fs <- get_disk ;;
  fs' <- lift (match fs_write fs dir name (FIndex b) with
               | Ok fs' => Ok fs'
               | Raise _ => Raise RuntimeError
               end) ;;
  put_disk fs'.

(** [faiss.read_index(path)] *)
Definition faiss_read_index (dir name : string) : M Index :=
  fs <- get_disk ;;
  lift (match fs_read fs dir name with
        | Ok (FIndex b) => deserialize_index b
        | _ => Raise RuntimeError
        end).

(** [np.stack(rows)]: at least one row, all of one shape. *)
Definition np_stack_ids (rows : list Z) : result (list Z) :=
  match rows with
  | [] => Raise ValueError
  | _ => Ok rows
  end.

Definition np_stack_keys (rows : list Vec) : result (list Vec) :=
  match rows with
  | [] => Raise ValueError
  | r :: rows' =>
      if forallb (fun r' => Nat.eqb (vec_dim r') (vec_dim r)) rows'
      then Ok rows else Raise ValueError
  end.

(** *** [DataStore.load] *)
Definition load (saved_dir : string) : M unit :=
  ix <- faiss_read_index saved_dir INDEX_FILE ;;
  modify_self (fun s => with_index s ix) ;;
  f <- torch_load saved_dir TOKEN_ID_FILE ;;
  labels <- lift (as_ids f) ;;
  modify_self (fun s => with_label_id_store s labels) ;;
  f <- torch_load saved_dir INPUT_ID_FILE ;;
  inputs <- lift (as_ids f) ;;
  modify_self (fun s => with_input_id_store s inputs).

(** *** [DataStore.train_index] *)
Definition train_index (key_store : list Vec) : M unit :=
  s <- get_self ;;
  ix <- lift (index_train (index s) key_store) ;;
  modify_self (fun s => with_index s (index_gpu_to_cpu ix)).

(** *** [DataStore.read_feature_files] *)

(** The body of the loop over the value files. *)
Definition read_shard (feature_dir file_name : string)
           (acc : list Vec * list Z * list Z) : M (list Vec * list Z * list Z) :=
  let '(key_store, label_id_store, input_id_store) := acc in
  file_id <- lift (Py.split_head file_name RAW_FEATURE_VALUE_SUFFIX) ;;
  let key_name := (file_id ++ RAW_FEATURE_KEY_SUFFIX)%string in
  let value_name := (file_id ++ RAW_FEATURE_VALUE_SUFFIX)%string in
  let input_id_name := (file_id ++ RAW_FEATURE_TOKEN_SUFFIX)%string in
  '(curr_keys, curr_label_ids, curr_input_ids) <-
    try_except
      (curr_keys <- torch_load feature_dir key_name ;;
       curr_label_ids <- torch_load feature_dir value_name ;;
       curr_input_ids <- torch_load feature_dir input_id_name ;;
       ret (curr_keys, curr_label_ids, curr_input_ids))
      (fun _ => raise IOError) ;;
  ks <- lift (as_keys curr_keys) ;;
  ls <- lift (as_ids curr_label_ids) ;;
  ins <- lift (as_ids curr_input_ids) ;;
  ret (key_store ++ ks, label_id_store ++ ls, input_id_store ++ ins).

Fixpoint read_shards (feature_dir : string) (value_files : list string)
         (acc : list Vec * list Z * list Z) : M (list Vec * list Z * list Z) :=
  match value_files with
  | [] => ret acc
  | file_name :: rest =>
      acc' <- read_shard feature_dir file_name acc ;;
      read_shards feature_dir rest acc'
  end.

Definition read_feature_files (feature_dir : string) (percentage : Z)
  : M (list Vec * list Z * list Z) :=
  fs <- get_disk ;;
  names <- lift (fs_listdir fs feature_dir) ;;
  let value_files :=
    filter (fun x => Py.endswith x RAW_FEATURE_VALUE_SUFFIX) names in
  let value_files :=
    Py.slice_to value_files (percent_of (length value_files) percentage) in
  '(key_store, label_id_store, input_id_store) <-
    read_shards feature_dir value_files ([], [], []) ;;
  key_store <- lift (np_stack_keys key_store) ;;
  label_id_store <- lift (np_stack_ids label_id_store) ;;
  input_id_store <- lift (np_stack_ids input_id_store) ;;
  ret (key_store, label_id_store, input_id_store).

(** *** [DataStore.add_keys] *)
Definition add_keys (keys_to_add : list Vec) : M unit :=
  s <- get_self ;;
  ix <- lift (index_add (index s) keys_to_add) ;;
  modify_self (fun s => with_index s ix).

(** *** [DataStore.save] *)
Definition save (output_dir : string) : M unit :=
  try_except
    (s <- get_self ;;
     faiss_write_index (index s) output_dir INDEX_FILE)
    (fun _ => raise IOError) ;;
  try_except
    (s <- get_self ;;
     labels <- lift (Py.attr (label_id_store s)) ;;
     torch_save output_dir TOKEN_ID_FILE (FIds labels) ;;
     inputs <- lift (Py.attr (input_id_store s)) ;;
     torch_save output_dir INPUT_ID_FILE (FIds inputs))
    (fun _ => raise IOError).

(** *** [DataStore.read_features_and_train], statement by statement *)

(** Lines 160-164: read the shards and set both id stores. *)
Definition read_and_set_stores (feature_dir : string) (percentage : Z)
  : M (list Vec) :=
  '(key_store, label_id_store, input_id_store) <-
    read_feature_files feature_dir percentage ;;
  modify_self (fun s => with_label_id_store s label_id_store) ;;
  modify_self (fun s => with_input_id_store s input_id_store) ;;
  ret key_store.

(** Lines 166-177: the optional whitening of the key store. *)
Definition whiten_keys (output_dir : string) (key_store : list Vec)
  : M (list Vec) :=
  s <- get_self ;;
  a <- lift (Py.attr (args s)) ;;
  if args_whitening a then
    '(kernel, bias) <- lift (whitening key_store) ;;
    let kernel :=
      if args_dim_reduction a =? 0 then kernel
      else kernel_columns kernel (d s) in
    torch_save output_dir "kernel.pt" (FKernel kernel) ;;
    torch_save output_dir "bias.pt" (FBias bias) ;;
    lift (transform_and_normalize key_store kernel bias)
  else ret key_store.

Definition read_features_and_train (feature_dir output_dir : string)
           (percentage : Z) : M unit :=
  key_store <- read_and_set_stores feature_dir percentage ;;
  key_store <- whiten_keys output_dir key_store ;;
  train_index key_store ;;
  add_keys key_store ;;
  save output_dir.

(** *** [DataStore.set_vocab_size] *)
Definition set_vocab_size (v : Z) : M unit :=
  modify_self (fun s => with_vocab_size s v).

(** *** [DataStore.search_k]

    The method only reads the instance, so it is a function of it. *)

Definition vocab_assert_msg : string :=
  "Please set the vocab size first (using set_vocab_size method) before the search!".

(** Lines 244-256: the search proper, once the assertion has passed. *)
Definition search_k_body (s : DataStore) (query : list Vec) (k : Z) (T : R)
  : result (list (list R) * list (list Z) * list (list Z)) :=
  ('(D, I_) <- index_search (index s) query k ;;
   label_store <- Py.attr (label_id_store s) ;;
   actual_label_ids <- Torch.index label_store I_ ;;
   input_store <- Py.attr (input_id_store s) ;;
   actual_input_ids <- Torch.index input_store I_ ;;
   let scores := Torch.zeros (length query) (vocab_size s) in
   let distance_scores := Torch.softmax (Torch.neg_div D T) in
   scores <- Torch.scatter_add scores actual_label_ids distance_scores ;;
   Ok (scores, actual_input_ids, I_))%result.

Definition search_k (s : DataStore) (query : list Vec) (k : Z) (T : R)
  : result (list (list R) * list (list Z) * list (list Z)) :=
  if negb (1 <=? vocab_size s) then Raise (AssertionError vocab_assert_msg)
  else search_k_body s query k T.

(** *** Observations used by the properties *)

(** The worlds after each statement of [read_features_and_train], up to and
    including the one in which it returns or raises. *)
Definition build_points (feature_dir output_dir : string) (percentage : Z)
           (w : World) : list World :=
  match read_and_set_stores feature_dir percentage w with
  | (Raise _, w1) => [w1]
  | (Ok ks, w1) =>
      w1 :: match whiten_keys output_dir ks w1 with
            | (Raise _, w2) => [w2]
            | (Ok ks', w2) =>
                w2 :: match train_index ks' w2 with
                      | (Raise _, w3) => [w3]
                      | (Ok _, w3) =>
                          w3 :: match add_keys ks' w3 with
                                | (Raise _, w4) => [w4]
                                | (Ok _, w4) => [w4; snd (save output_dir w4)]
                                end
                      end
            end
  end.

(** Both id stores are set and have as many entries as the index has
    vectors. *)
Definition counts_agree (s : DataStore) : Prop :=
  exists labels inputs,
    label_id_store s = Some labels /\
    input_id_store s = Some inputs /\
    length labels = index_ntotal (index s) /\
    length inputs = index_ntotal (index s).

End Methods.

(** *** Histories of method calls on one instance *)

Section Histories.

Context {F : Faiss} {P : Projection F} {C : Constants} {N : Float64}.

Inductive call : Type :=
| CallLoad (saved_dir : string)
| CallTrainIndex (key_store : list Vec)
| CallAddKeys (keys_to_add : list Vec)
| CallSave (output_dir : string)
| CallReadFeaturesAndTrain (feature_dir output_dir : string) (percentage : Z)
| CallSetVocabSize (v : Z).

Definition run_call (c : call) : M unit :=
  match c with
  | CallLoad saved_dir => load saved_dir
  | CallTrainIndex key_store => train_index key_store
  | CallAddKeys keys_to_add => add_keys keys_to_add
  | CallSave output_dir => save output_dir
  | CallReadFeaturesAndTrain feature_dir output_dir percentage =>
      read_features_and_train feature_dir output_dir percentage
  | CallSetVocabSize v => set_vocab_size v
  end.

Definition is_set_vocab_size (c : call) : bool :=
  match c with CallSetVocabSize _ => true | _ => false end.

(** The caller goes on with the instance whether or not a call raised. *)
Fixpoint run_calls (cs : list call) (w : World) : World :=
  match cs with
  | [] => w
  | c :: cs' => run_calls cs' (snd (run_call c w))
  end.

End Histories.

(** ** Conditions under which the properties are stated *)

Section Conditions.

Context {F : Faiss} {P : Projection F} {C : Constants} {N : Float64}.

(** The index answers a batch of queries with [k] neighbors each:
    distances [D] and ids [I_] of shape (queries, k), and both id stores
    can be read at every returned id, giving [labels] and [inputs]. *)
Record Retrieval (s : DataStore) (query : list Vec) (k : Z)
       (D : list (list R)) (I_ labels inputs : list (list Z)) : Prop := {
  retrieval_vocab : 1 <= vocab_size s;
  retrieval_search : index_search (index s) query k = Ok (D, I_);
  retrieval_rows_D : length D = length query;
  retrieval_rows_I : length I_ = length query;
  retrieval_cols_D : Forall (fun row => length row = Z.to_nat k) D;
  retrieval_cols_I : Forall (fun row => length row = Z.to_nat k) I_;
  retrieval_labels :
    exists store, label_id_store s = Some store /\ Torch.index store I_ = Ok labels;
  retrieval_inputs :
    exists store, input_id_store s = Some store /\ Torch.index store I_ = Ok inputs
}.

(** Every retrieved label is a vocabulary position. *)
Definition labels_in_range (s : DataStore) (labels : list (list Z)) : Prop :=
  Forall (Forall (fun l => 0 <= l < vocab_size s)) labels.

(** The softmax weights of row [r] of the distance matrix. *)
Definition weights (D : list (list R)) (T : R) (r : nat) : list R :=
  Torch.softmax_row (map (fun dist => (- dist / T)%R) (nth r D [])).

(** A written index reads back as an index that answers every search the
    same way. *)
Definition serialization_faithful : Prop :=
  forall ix b,
    serialize_index ix = Ok b ->
    exists ix',
      deserialize_index b = Ok ix' /\
      forall query k, index_search ix' query k = index_search ix query k.

(** The three files written by [save] have three different names. *)
Definition saved_names_distinct : Prop :=
  NoDup [INDEX_FILE; TOKEN_ID_FILE; INPUT_ID_FILE].

(** A computation leaves an observation of the world as it found it,
    whether it returns or raises. *)
Definition keeps {X A : Type} (obs : World -> X) (m : M A) : Prop :=
  forall w, obs (snd (m w)) = obs w.

(** Two observations: the whole instance, and its vocabulary size. *)
Definition the_self (w : World) : DataStore := self w.
Definition the_vocab_size (w : World) : Z := vocab_size (self w).

(** No call of the history is [set_vocab_size]. *)
Definition never_sets_vocab_size (cs : list call) : Prop :=
  forallb (fun c => negb (is_set_vocab_size c)) cs = true.

(** The files of the projection are not among the files written by
    [save]. *)
Definition projection_names_free : Prop :=
  ~ In "kernel.pt"%string [INDEX_FILE; TOKEN_ID_FILE; INPUT_ID_FILE] /\
  ~ In "bias.pt"%string [INDEX_FILE; TOKEN_ID_FILE; INPUT_ID_FILE].

(** How the vector count of the index evolves. *)
Record IndexCounts : Prop := {
  ntotal_train :
    forall ix ks ix', index_train ix ks = Ok ix' -> index_ntotal ix' = index_ntotal ix;
  ntotal_add :
    forall ix ks ix',
      index_add ix ks = Ok ix' ->
      index_ntotal ix' = (index_ntotal ix + length ks)%nat;
  ntotal_to_cpu :
    forall ix, index_ntotal (index_gpu_to_cpu ix) = index_ntotal ix
}.

(** The projection maps every key row to one row. *)
Definition transform_keeps_rows : Prop :=
  forall ks kernel bias ks',
    transform_and_normalize ks kernel bias = Ok ks' -> length ks' = length ks.

(** The three files of the shard named by a value file have matching row
    counts. *)
Definition shard_alignedb (fs : FS) (feature_dir file_name : string) : bool :=
  match Py.split_head file_name RAW_FEATURE_VALUE_SUFFIX with
  | Ok file_id =>
      match fs_read fs feature_dir (file_id ++ RAW_FEATURE_KEY_SUFFIX)%string,
            fs_read fs feature_dir (file_id ++ RAW_FEATURE_VALUE_SUFFIX)%string,
            fs_read fs feature_dir (file_id ++ RAW_FEATURE_TOKEN_SUFFIX)%string
      with
      | Ok (FKeys ks), Ok (FIds ls), Ok (FIds ins) =>
          Nat.eqb (length ks) (length ls) && Nat.eqb (length ls) (length ins)
      | _, _, _ => true
      end
  | Raise _ => true
  end.

Definition shards_aligned (fs : FS) (feature_dir : string) : Prop :=
  forall names,
    fs_listdir fs feature_dir = Ok names ->
    forallb (shard_alignedb fs feature_dir) names = true.

End Conditions.

(** ** The command-line entry point *)


Section EntryPoint.

Context {F : Faiss} {P : Projection F} {C : Constants} {N : Float64}.





(** *** Further conditions *)

(** The value files [read_feature_files] goes through, given the listing of
    the feature directory. *)
Definition selected_value_files (names : list string) (percentage : Z)
  : list string :=
  let value_files :=
    filter (fun x => Py.endswith x RAW_FEATURE_VALUE_SUFFIX) names in
  Py.slice_to value_files (percent_of (length value_files) percentage).

(** The three files of the shard named by a value file are on disk and hold
    the keys, label ids and input ids [shard]. *)
Definition shard_loaded (fs : FS) (feature_dir file_name : string)
           (shard : list Vec * list Z * list Z) : Prop :=
  exists file_id,
    Py.split_head file_name RAW_FEATURE_VALUE_SUFFIX = Ok file_id /\
    fs_read fs feature_dir (file_id ++ RAW_FEATURE_KEY_SUFFIX)%string
    = Ok (FKeys (fst (fst shard))) /\
    fs_read fs feature_dir (file_id ++ RAW_FEATURE_VALUE_SUFFIX)%string
    = Ok (FIds (snd (fst shard))) /\
    fs_read fs feature_dir (file_id ++ RAW_FEATURE_TOKEN_SUFFIX)%string
    = Ok (FIds (snd shard)).

(** One of the three files of the shard named by a value file is missing. *)
Definition shard_incomplete (fs : FS) (feature_dir file_name : string) : Prop :=
  exists file_id,
    Py.split_head file_name RAW_FEATURE_VALUE_SUFFIX = Ok file_id /\
    (is_ok (fs_read fs feature_dir (file_id ++ RAW_FEATURE_KEY_SUFFIX)%string)
     && is_ok (fs_read fs feature_dir (file_id ++ RAW_FEATURE_VALUE_SUFFIX)%string)
     && is_ok (fs_read fs feature_dir (file_id ++ RAW_FEATURE_TOKEN_SUFFIX)%string)
     = false).

(** A history that reaches the index only through [train_index] and
    [add_keys]: no [load], no [read_features_and_train]. *)
Definition sets_no_store (c : call) : bool :=
  match c with
  | CallLoad _ | CallReadFeaturesAndTrain _ _ _ => false
  | _ => true
  end.

Definition the_label_id_store (w : World) : option (list Z) :=
  label_id_store (self w).

Definition the_disk (w : World) : FS := disk w.

End EntryPoint.

(** ** A small concrete instantiation

    A flat index with exhaustive search over integer vectors stands in for
    FAISS when the properties are run on concrete inputs. *)

Module Toy.

Record FlatIndex : Type := {
  is_trained : bool;
  on_gpu : bool;
  dim : Z;
  rows : list (list Z)
}.

Definition sqdist (a b : list Z) : Z :=
  fold_right Z.add 0 (map (fun p => (fst p - snd p) * (fst p - snd p)) (combine a b)).

Fixpoint insert_sorted (p : Z * Z) (l : list (Z * Z)) : list (Z * Z) :=
  match l with
  | [] => [p]
  | q :: l' =>
      if (fst p <? fst q) || ((fst p =? fst q) && (snd p <? snd q))
      then p :: l else q :: insert_sorted p l'
  end.

(** The [k] nearest rows as (distance, id), nearest first, padded with id
    [-1] when fewer than [k] rows are stored. *)
Definition knn (stored : list (list Z)) (k : nat) (q : list Z) : list (Z * Z) :=
  let cands :=
    combine (map (sqdist q) stored)
            (map Z.of_nat (seq 0 (length stored))) in
  firstn k (fold_right insert_sorted [] cands ++ repeat (2 ^ 127, -1) k).

Definition search (ix : FlatIndex) (qs : list (list Z)) (k : Z)
  : result (list (list R) * list (list Z)) :=
  if k <=? 0 then Raise RuntimeError
  else if negb (is_trained ix) then Raise RuntimeError
  else
    let found := map (knn (rows ix) (Z.to_nat k)) qs in
    Ok (map (map (fun p => IZR (fst p))) found, map (map snd) found).

Definition train (ix : FlatIndex) (ks : list (list Z)) : result FlatIndex :=
  Ok {| is_trained := true; on_gpu := on_gpu ix; dim := dim ix; rows := rows ix |}.

Definition add (ix : FlatIndex) (ks : list (list Z)) : result FlatIndex :=
  if is_trained ix
  then Ok {| is_trained := true; on_gpu := on_gpu ix; dim := dim ix;
             rows := rows ix ++ ks |}
  else Raise RuntimeError.

Definition to_cpu (ix : FlatIndex) : FlatIndex :=
  {| is_trained := is_trained ix; on_gpu := false; dim := dim ix; rows := rows ix |}.

Definition serialize (ix : FlatIndex) : result FlatIndex :=
  if on_gpu ix then Raise RuntimeError else Ok ix.

#[export] Instance faiss : Faiss := {|
  Vec := list Z;
  vec_dim := @length Z;
  Index := FlatIndex;
  Blob := FlatIndex;
  IndexIVFFlat_gpu := fun dim _ _ =>
    {| is_trained := false; on_gpu := true; dim := dim; rows := [] |};
  index_train := train;
  index_add := add;
  index_search := search;
  index_gpu_to_cpu := to_cpu;
  index_ntotal := fun ix => length (rows ix);
  serialize_index := serialize;
  deserialize_index := fun b => Ok b
|}.

(** A projection that shifts and scales every coordinate. *)
#[export] Instance projection : Projection faiss := {|
  Kernel := Z;
  Bias := Z;
  whitening := fun _ => Ok (2, 1);
  kernel_columns := fun k _ => k;
  transform_and_normalize := fun ks k b =>
    Ok (map (map (fun x => (x + b) * k)) ks)
|}.

(** File names as in the docstring of [load]; the shard suffixes are
    placeholders. *)
#[export] Instance constants : Constants := {|
  INDEX_FILE := "index.trained";
  INPUT_ID_FILE := "input_ids.pt";
  RAW_FEATURE_KEY_SUFFIX := "_keys.pt";
  RAW_FEATURE_TOKEN_SUFFIX := "_tokens.pt";
  RAW_FEATURE_VALUE_SUFFIX := "_values.pt";
  TOKEN_ID_FILE := "token_ids.pt"
|}.

#[export] Instance float64 : Float64 := {|
  percent_of := fun n p => Z.quot (Z.of_nat n * p) 100
|}.

(** Four stored keys; the first and third share label [0]. *)
Definition keys : list (@Vec faiss) := [[0; 0]; [1; 0]; [0; 1]; [5; 5]].
Definition labels : list Z := [0; 1; 0; 2].
Definition tokens : list Z := [10; 11; 12; 13].

Definition populated_index : FlatIndex :=
  {| is_trained := true; on_gpu := false; dim := 2; rows := keys |}.

Definition populated : DataStore :=
  {| d := 2; vocab_size := 3; index := populated_index;
     label_id_store := Some labels; input_id_store := Some tokens;
     args := None |}.

Local Open Scope string_scope.

(** Two shards in ["feats"], an empty output directory ["out"]. *)
Definition feats : Dir :=
  [ ("a_keys.pt", FKeys [[0; 0]; [1; 0]]);
    ("a_values.pt", FIds [0; 1]);
    ("a_tokens.pt", FIds [10; 11]);
    ("b_keys.pt", FKeys [[0; 1]; [5; 5]]);
    ("b_values.pt", FIds [0; 2]);
    ("b_tokens.pt", FIds [12; 13]) ].

Definition disk0 : FS := [ ("feats", feats); ("out", []) ].

Definition fresh (whiten : bool) : World :=
  {| self := DataStore_init 2 (Some {| args_whitening := whiten;
                                       args_dim_reduction := 2 |});
     disk := disk0 |}.

(** An instance whose label store is shorter than its index. *)
Definition short_store : DataStore :=
  {| d := 2; vocab_size := 3; index := populated_index;
     label_id_store := Some [0; 1]; input_id_store := Some tokens;
     args := None |}.

(** An instance trained and filled through the index alone. *)
Definition unlabelled : World :=
  {| self := with_index (DataStore_init 2 None) populated_index;
     disk := disk0 |}.

(** An output directory that holds the index file only. *)
Definition index_only : FS :=
  [ ("feats", feats); ("out", [("index.trained", FIndex populated_index)]) ].

(** A feature directory whose second shard has no input-token file. *)
Definition incomplete : World :=
  {| self := DataStore_init 2 None;
     disk := [ ("feats", [ ("a_keys.pt", FKeys [[0; 0]; [1; 0]]);
                           ("a_values.pt", FIds [0; 1]);
                           ("a_tokens.pt", FIds [10; 11]);
                           ("b_keys.pt", FKeys [[0; 1]; [5; 5]]);
                           ("b_values.pt", FIds [0; 2]) ]) ] |}.

(** One more key, far from the stored ones. *)
Definition far_key : @Vec faiss := [9; 9].

(** The populated instance next to the disk it was built from. *)
Definition populated_world : World :=
  {| self := populated; disk := disk0 |}.


End Toy.

(** * Properties *)

(** ** Results and sequencing *)

Lemma mapM_Forall2 {A B} (f : A -> result B) (l : list A) (out : list B) :
  mapM f l = Ok out -> Forall2 (fun a b => f a = Ok b) l out.
Proof.
  revert out; induction l as [|a l IH]; intros out H; simpl in H.
  - inversion H; constructor.
  - destruct (f a) as [b|e] eqn:Ha; simpl in H; [|discriminate].
    destruct (mapM f l) as [bs|e] eqn:Hl; simpl in H; [|discriminate].
    inversion H; subst. constructor; auto.
Qed.

Lemma Forall2_mapM {A B} (f : A -> result B) (l : list A) (out : list B) :
  Forall2 (fun a b => f a = Ok b) l out -> mapM f l = Ok out.
Proof.
  induction 1 as [|a b l out Ha _ IH]; simpl; [reflexivity|].
  rewrite Ha; simpl. rewrite IH; reflexivity.
Qed.

Lemma mapM_length {A B} (f : A -> result B) (l : list A) (out : list B) :
  mapM f l = Ok out -> length out = length l.
Proof.
  intros H. apply mapM_Forall2 in H.
  symmetry; eapply Forall2_length; eauto.
Qed.

(** ** Facts about the tensor operations *)

Module TorchFacts.
Import Torch.

Local Open Scope R_scope.

Lemma sum_cons (x : R) (l : list R) : sum (x :: l) = x + sum l.
Proof. reflexivity. Qed.

Lemma sum_repeat_zero (n : nat) : sum (repeat 0 n) = 0.
Proof. induction n as [|n IH]; simpl; [reflexivity|]. rewrite IH; lra. Qed.

Lemma length_add_at (i : nat) (w : R) (row : list R) :
  length (add_at i w row) = length row.
Proof.
  revert i; induction row as [|x row IH]; intros [|i]; simpl; auto.
Qed.

Lemma sum_add_at (i : nat) (w : R) (row : list R) :
  (i < length row)%nat -> sum (add_at i w row) = sum row + w.
Proof.
  revert i; induction row as [|x row IH]; intros [|i] Hi; simpl in *; try lia.
  - lra.
  - rewrite IH by lia. lra.
Qed.

Lemma nth_add_at (i j : nat) (w : R) (row : list R) :
  (i < length row)%nat ->
  nth j (add_at i w row) 0 = nth j row 0 + (if Nat.eqb i j then w else 0).
Proof.
  revert i j; induction row as [|x row IH]; intros [|i] [|j] Hi;
    simpl in *; try lia; try lra.
  apply IH; lia.
Qed.

(** Scatter-add keeps the length of the row it writes into. *)
Lemma scatter_add_row_length (index : list Z) :
  forall self src out,
    scatter_add_row self index src = Ok out -> length out = length self.
Proof.
  induction index as [|i index IH]; intros self src out H; simpl in H.
  - inversion H; reflexivity.
  - destruct src as [|w src]; [discriminate|].
    destruct ((0 <=? i)%Z && (i <? Z.of_nat (length self))%Z); [|discriminate].
    apply IH in H. now rewrite length_add_at in H.
Qed.

(** Scatter-add moves the whole of the source onto the row: nothing is
    lost and nothing is counted twice. *)
Lemma scatter_add_row_sum (index : list Z) :
  forall self src out,
    length index = length src ->
    scatter_add_row self index src = Ok out ->
    sum out = sum self + sum src.
Proof.
  induction index as [|i index IH]; intros self src out Hlen H; simpl in H.
  - destruct src; [|discriminate]. inversion H; subst. simpl; lra.
  - destruct src as [|w src]; [discriminate|].
    destruct ((0 <=? i)%Z && (i <? Z.of_nat (length self))%Z) eqn:Hi;
      [|discriminate].
    apply andb_prop in Hi as [H0 H1].
    apply Z.leb_le in H0. apply Z.ltb_lt in H1.
    apply IH in H; [|simpl in Hlen; lia].
    rewrite H, sum_add_at by lia. simpl; lra.
Qed.

(** Each position receives exactly the source entries addressed to it. *)
Lemma scatter_add_row_nth (index : list Z) :
  forall self src out x,
    scatter_add_row self index src = Ok out ->
    (0 <= x)%Z ->
    nth (Z.to_nat x) out 0 = nth (Z.to_nat x) self 0 + mass_at x index src.
Proof.
  induction index as [|i index IH]; intros self src out x H Hx; simpl in H.
  - inversion H; subst. simpl. lra.
  - destruct src as [|w src]; [discriminate|].
    destruct ((0 <=? i)%Z && (i <? Z.of_nat (length self))%Z) eqn:Hi;
      [|discriminate].
    apply andb_prop in Hi as [H0 H1].
    apply Z.leb_le in H0. apply Z.ltb_lt in H1.
    rewrite (IH _ _ _ x H Hx), nth_add_at by lia. simpl.
    destruct (Z.eqb_spec i x) as [->|Hne].
    + rewrite Nat.eqb_refl. lra.
    + destruct (Nat.eqb_spec (Z.to_nat i) (Z.to_nat x)) as [Heq|_]; [|lra].
      apply Z2Nat.inj in Heq; lia.
Qed.

(** Scatter-add succeeds exactly when every index is a position of the
    row (the source being long enough). *)
Lemma scatter_add_row_ok (index : list Z) :
  forall self src,
    length index = length src ->
    Forall (fun i => (0 <= i < Z.of_nat (length self))%Z) index ->
    exists out, scatter_add_row self index src = Ok out.
Proof.
  induction index as [|i index IH]; intros self src Hlen Hall; simpl.
  - eauto.
  - destruct src as [|w src]; [discriminate|].
    inversion Hall as [|? ? Hi Hrest]; subst.
    replace ((0 <=? i)%Z && (i <? Z.of_nat (length self))%Z) with true
      by (symmetry; apply andb_true_intro; split;
          [apply Z.leb_le | apply Z.ltb_lt]; lia).
    apply IH; [simpl in Hlen; lia|].
    now rewrite length_add_at.
Qed.

Lemma scatter_add_row_out_of_range (index : list Z) :
  forall self src,
    length index = length src ->
    Exists (fun i => ~ (0 <= i < Z.of_nat (length self))%Z) index ->
    scatter_add_row self index src = Raise RuntimeError.
Proof.
  induction index as [|i index IH]; intros self src Hlen Hex; simpl.
  - inversion Hex.
  - destruct src as [|w src]; [discriminate|].
    destruct ((0 <=? i)%Z && (i <? Z.of_nat (length self))%Z) eqn:Hi;
      [|reflexivity].
    apply andb_prop in Hi as [H0 H1].
    apply Z.leb_le in H0. apply Z.ltb_lt in H1.
    inversion Hex as [? ? Hbad|? ? Hrest]; subst; [lia|].
    apply IH; [simpl in Hlen; lia|].
    now rewrite length_add_at.
Qed.

(** *** Softmax *)

Lemma sum_exp_pos (xs : list R) : xs <> [] -> 0 < sum (map exp xs).
Proof.
  induction xs as [|x xs IH]; intros Hne; [congruence|].
  simpl. destruct xs as [|y ys].
  - simpl. pose proof (exp_pos x). lra.
  - pose proof (exp_pos x). assert (0 < sum (map exp (y :: ys))) by (apply IH; discriminate).
    lra.
Qed.

Lemma sum_map_div (c : R) (l : list R) :
  sum (map (fun x => x / c) l) = sum l / c.
Proof.
  induction l as [|x l IH]; simpl.
  - unfold Rdiv. lra.
  - rewrite IH. unfold Rdiv. lra.
Qed.

Lemma softmax_row_sum (xs : list R) :
  xs <> [] -> sum (softmax_row xs) = 1.
Proof.
  intros Hne. unfold softmax_row.
  pose proof (sum_exp_pos xs Hne) as Hpos.
  replace (map (fun x => exp x / sum (map exp xs)) xs)
    with (map (fun y => y / sum (map exp xs)) (map exp xs))
    by (rewrite map_map; reflexivity).
  rewrite sum_map_div. field. lra.
Qed.

Lemma softmax_row_length (xs : list R) : length (softmax_row xs) = length xs.
Proof. unfold softmax_row. apply length_map. Qed.

Lemma softmax_row_pos (xs : list R) (j : nat) :
  (j < length xs)%nat -> 0 < nth j (softmax_row xs) 0.
Proof.
  intros Hj. unfold softmax_row.
  assert (Hne : xs <> []) by (destruct xs; simpl in *; [lia|discriminate]).
  pose proof (sum_exp_pos xs Hne) as Hpos.
  set (f := fun x => exp x / sum (map exp xs)).
  rewrite (nth_indep _ 0 (f 0)) by (rewrite length_map; exact Hj).
  rewrite map_nth. unfold f.
  apply Rdiv_lt_0_compat; [apply exp_pos | exact Hpos].
Qed.

(** *** Mass landing on one position *)

Lemma mass_at_nonneg (x : Z) (index : list Z) :
  forall src, Forall (fun w => 0 <= w) src -> 0 <= mass_at x index src.
Proof.
  induction index as [|i index IH]; intros src Hsrc; simpl; [lra|].
  destruct src as [|w src]; [lra|].
  inversion Hsrc; subst. specialize (IH src H2).
  destruct (i =? x)%Z; lra.
Qed.

(** A position addressed at [a] receives at least the weight at [a]. *)
Lemma mass_at_ge (x : Z) (index : list Z) :
  forall src a,
    Forall (fun w => 0 <= w) src ->
    nth_error index a = Some x ->
    (a < length src)%nat ->
    nth a src 0 <= mass_at x index src.
Proof.
  induction index as [|i index IH]; intros src a Hsrc Ha Hlt.
  - destruct a; discriminate.
  - destruct src as [|w src]; [simpl in Hlt; lia|].
    inversion Hsrc; subst. simpl.
    destruct a as [|a]; simpl in *.
    + inversion Ha; subst. rewrite Z.eqb_refl.
      pose proof (mass_at_nonneg x index src H2). lra.
    + specialize (IH src a H2 Ha ltac:(lia)).
      destruct (i =? x)%Z; lra.
Qed.

(** A position addressed at two distinct places [a] and [b] receives at
    least both weights. *)
Lemma mass_at_ge2 (x : Z) (index : list Z) :
  forall src a b,
    Forall (fun w => 0 <= w) src ->
    nth_error index a = Some x ->
    nth_error index b = Some x ->
    (a < b)%nat ->
    (b < length src)%nat ->
    nth a src 0 + nth b src 0 <= mass_at x index src.
Proof.
  induction index as [|i index IH]; intros src a b Hsrc Ha Hb Hab Hlt.
  - destruct a; discriminate.
  - destruct src as [|w src]; [simpl in Hlt; lia|].
    inversion Hsrc; subst. simpl.
    destruct b as [|b]; [lia|].
    destruct a as [|a]; simpl in *.
    + inversion Ha; subst. rewrite Z.eqb_refl.
      pose proof (mass_at_ge x index src b H2 Hb ltac:(lia)). lra.
    + specialize (IH src a b H2 Ha Hb ltac:(lia) ltac:(lia)).
      destruct (i =? x)%Z; lra.
Qed.

End TorchFacts.

(** ** Batches *)

Module BatchFacts.
Import Torch TorchFacts.

Lemma nth_zeros (q : nat) (n : Z) (r : nat) :
  (r < q)%nat -> nth r (zeros q n) [] = repeat 0%R (Z.to_nat n).
Proof.
  intros Hr. unfold zeros.
  apply nth_error_nth. rewrite nth_error_repeat by exact Hr. reflexivity.
Qed.

Lemma nth_softmax_neg_div (D : list (list R)) (T : R) (r : nat) :
  nth r (softmax (neg_div D T)) [] =
  softmax_row (map (fun dist => (- dist / T)%R) (nth r D [])).
Proof.
  unfold softmax, neg_div. rewrite map_map.
  set (h := fun row => softmax_row (map (fun dist => (- dist / T)%R) row)).
  change (@nil R) with (h []) at 1.
  now rewrite map_nth.
Qed.

Lemma scatter_add_length (index : list (list Z)) :
  forall self src out,
    scatter_add self index src = Ok out -> length out = length self.
Proof.
  induction index as [|irow index IH]; intros self src out H; simpl in H.
  - inversion H; reflexivity.
  - destruct self as [|srow self]; [discriminate|].
    destruct src as [|wrow src]; [discriminate|].
    destruct (scatter_add_row srow irow wrow) as [row|e]; simpl in H; [|discriminate].
    destruct (scatter_add self index src) as [rest|e] eqn:Hrest; simpl in H;
      [|discriminate].
    inversion H; subst. simpl. f_equal. eapply IH; eauto.
Qed.

(** A successful batch scatter is the row scatter on every indexed row. *)
Lemma scatter_add_row_at (index : list (list Z)) :
  forall self src out r irow,
    scatter_add self index src = Ok out ->
    nth_error index r = Some irow ->
    exists orow,
      nth_error out r = Some orow /\
      scatter_add_row (nth r self []) irow (nth r src []) = Ok orow.
Proof.
  induction index as [|i0 index IH]; intros self src out r irow H Hr.
  - destruct r; discriminate.
  - simpl in H.
    destruct self as [|srow self]; [discriminate|].
    destruct src as [|wrow src]; [discriminate|].
    destruct (scatter_add_row srow i0 wrow) as [row|e] eqn:Hrow; simpl in H;
      [|discriminate].
    destruct (scatter_add self index src) as [rest|e] eqn:Hrest; simpl in H;
      [|discriminate].
    inversion H; subst.
    destruct r as [|r]; simpl in *.
    + inversion Hr; subst. eauto.
    + eapply IH; eauto.
Qed.

(** The batch scatter succeeds when every indexed row does. *)
Lemma scatter_add_ok (index : list (list Z)) :
  forall self src,
    length index = length self ->
    length index = length src ->
    (forall r irow, nth_error index r = Some irow ->
                    exists orow,
                      scatter_add_row (nth r self []) irow (nth r src []) = Ok orow) ->
    exists out, scatter_add self index src = Ok out.
Proof.
  induction index as [|i0 index IH]; intros self src Hs Hw Hrows; simpl.
  - eauto.
  - destruct self as [|srow self]; [discriminate|].
    destruct src as [|wrow src]; [discriminate|].
    destruct (Hrows 0%nat i0 eq_refl) as [row Hrow]. simpl in Hrow.
    rewrite Hrow. simpl.
    destruct (IH self src) as [rest Hrest].
    + simpl in Hs; lia.
    + simpl in Hw; lia.
    + intros r irow Hr. apply (Hrows (S r) irow Hr).
    + rewrite Hrest. simpl. eauto.
Qed.

Lemma scatter_add_row_raises (index : list Z) :
  forall self src e,
    scatter_add_row self index src = Raise e -> e = RuntimeError.
Proof.
  induction index as [|i index IH]; intros self src e H; simpl in H.
  - discriminate.
  - destruct src as [|w src]; [congruence|].
    destruct ((0 <=? i) && (i <? Z.of_nat (length self))); [|congruence].
    eapply IH; eauto.
Qed.

(** The only exception of a scatter is the RuntimeError. *)
Lemma scatter_add_raises (index : list (list Z)) :
  forall self src e,
    scatter_add self index src = Raise e -> e = RuntimeError.
Proof.
  induction index as [|i0 index IH]; intros self src e H; simpl in H.
  - discriminate.
  - destruct self as [|srow self]; [congruence|].
    destruct src as [|wrow src]; [congruence|].
    destruct (scatter_add_row srow i0 wrow) as [row|e'] eqn:Hrow; simpl in H.
    + destruct (scatter_add self index src) as [rest|e'] eqn:Hrest; simpl in H;
        [discriminate|].
      inversion H; subst. eapply IH; eauto.
    + inversion H; subst. eapply scatter_add_row_raises; eauto.
Qed.

(** Indexing a store keeps the shape and the order of the index matrix. *)
Lemma index_positionwise (store : list Z) (I_ out : list (list Z)) :
  index store I_ = Ok out ->
  Forall2 (Forall2 (fun id v => getitem store id = Ok v)) I_ out.
Proof.
  intros H. unfold index in H. apply mapM_Forall2 in H.
  induction H as [|irow orow I' out' Hrow _ IH]; constructor; auto.
  now apply mapM_Forall2.
Qed.

Lemma index_row_length (store : list Z) (I_ out : list (list Z)) (n : nat) :
  index store I_ = Ok out ->
  Forall (fun row => length row = n) I_ ->
  Forall (fun row => length row = n) out.
Proof.
  intros H. apply index_positionwise in H.
  induction H as [|irow orow I' out' Hrow _ IH]; intros Hall; constructor.
  - inversion Hall; subst. symmetry. eapply Forall2_length; eauto.
  - inversion Hall; subst. auto.
Qed.

(** A non-negative id reads the entry at that offset. *)
Lemma getitem_nonneg (store : list Z) (i v : Z) :
  0 <= i -> getitem store i = Ok v -> nth_error store (Z.to_nat i) = Some v.
Proof.
  intros Hi H. unfold getitem in H.
  destruct ((0 <=? i) && (i <? Z.of_nat (length store))) eqn:Hin.
  - destruct (nth_error store (Z.to_nat i)); congruence.
  - replace (i <? 0) with false in H by (symmetry; apply Z.ltb_ge; lia).
    rewrite andb_false_r in H. discriminate.
Qed.

End BatchFacts.

(** ** [search_k] *)

Section SearchFacts.

Context {F : Faiss} {P : Projection F} {C : Constants} {N : Float64}.

Import Torch TorchFacts BatchFacts.

Variables (s : DataStore) (query : list Vec) (k : Z).
Variables (D : list (list R)) (I_ labels inputs : list (list Z)).
Hypothesis retrieval : Retrieval s query k D I_ labels inputs.

(** Once the neighbors are retrieved, the search is the scatter of the
    softmax weights onto the zero matrix. *)
Lemma search_k_is_scatter (T : R) :
  search_k s query k T =
  match scatter_add (zeros (length query) (vocab_size s)) labels
                    (softmax (neg_div D T)) with
  | Ok scores => Ok (scores, inputs, I_)
  | Raise e => Raise e
  end.
Proof.
  destruct retrieval as [Hv Hs _ _ _ _ [ls [Hls Hl]] [ins [Hins Hi]]].
  unfold search_k, search_k_body.
  replace (1 <=? vocab_size s) with true by (symmetry; apply Z.leb_le; lia).
  simpl. rewrite Hs. simpl. rewrite Hls. simpl. rewrite Hl. simpl.
  rewrite Hins. simpl. rewrite Hi. simpl.
  destruct (scatter_add _ _ _); reflexivity.
Qed.

Lemma labels_rows : length labels = length query.
Proof.
  destruct retrieval as [_ _ _ HI _ _ [ls [_ Hl]] _].
  unfold index in Hl. apply mapM_length in Hl. lia.
Qed.

Lemma labels_cols : Forall (fun row => length row = Z.to_nat k) labels.
Proof.
  destruct retrieval as [_ _ _ _ _ HI [ls [_ Hl]] _].
  eapply index_row_length; eauto.
Qed.

Lemma weights_length (T : R) (r : nat) :
  (r < length query)%nat -> length (weights D T r) = Z.to_nat k.
Proof.
  intros Hr. destruct retrieval as [_ _ HD _ HcD _ _ _].
  unfold weights. rewrite softmax_row_length, length_map.
  rewrite Forall_forall in HcD. apply HcD. apply nth_In. lia.
Qed.

(** Row [r] of a successful search is the row scatter of the weights of
    that row. *)
Lemma search_k_row (T : R) (scores : list (list R)) (r : nat) (lrow : list Z) :
  search_k s query k T = Ok (scores, inputs, I_) ->
  nth_error labels r = Some lrow ->
  exists orow,
    nth_error scores r = Some orow /\
    scatter_add_row (repeat 0%R (Z.to_nat (vocab_size s))) lrow (weights D T r)
    = Ok orow.
Proof.
  intros Hsearch Hr. rewrite search_k_is_scatter in Hsearch.
  destruct (scatter_add _ _ _) as [out|e] eqn:Hsc; [|discriminate].
  inversion Hsearch; subst out.
  destruct (scatter_add_row_at _ _ _ _ _ _ Hsc Hr) as [orow [Ho Hrow]].
  exists orow; split; [exact Ho|].
  assert (Hlt : (r < length query)%nat).
  { rewrite <- labels_rows. apply nth_error_Some. congruence. }
  rewrite nth_zeros, nth_softmax_neg_div in Hrow by exact Hlt.
  exact Hrow.
Qed.

(** With every label inside the vocabulary the search returns. *)
Lemma search_k_returns (T : R) :
  labels_in_range s labels ->
  exists scores, search_k s query k T = Ok (scores, inputs, I_).
Proof.
  intros Hrange. rewrite search_k_is_scatter.
  destruct (scatter_add_ok labels (zeros (length query) (vocab_size s))
              (softmax (neg_div D T))) as [out Hout].
  - unfold zeros. rewrite repeat_length. apply labels_rows.
  - unfold softmax, neg_div. rewrite !length_map, labels_rows.
    destruct retrieval; lia.
  - intros r lrow Hr.
    assert (Hlt : (r < length query)%nat).
    { rewrite <- labels_rows. apply nth_error_Some. congruence. }
    rewrite nth_zeros, nth_softmax_neg_div by exact Hlt.
    apply scatter_add_row_ok.
    + fold (weights D T r). rewrite weights_length by exact Hlt.
      pose proof labels_cols as Hc. rewrite Forall_forall in Hc.
      apply Hc. eapply nth_error_In; eauto.
    + rewrite repeat_length.
      destruct retrieval as [Hv _ _ _ _ _ _ _].
      unfold labels_in_range in Hrange. rewrite Forall_forall in Hrange.
      specialize (Hrange lrow (nth_error_In _ _ Hr)).
      eapply Forall_impl; [|exact Hrange].
      intros l Hl. simpl in Hl. lia.
  - rewrite Hout. eauto.
Qed.

Lemma scores_rows (T : R) (scores : list (list R)) :
  search_k s query k T = Ok (scores, inputs, I_) ->
  length scores = length query.
Proof.
  intros Hsearch. rewrite search_k_is_scatter in Hsearch.
  destruct (scatter_add _ _ _) as [out|e] eqn:Hsc; [|discriminate].
  inversion Hsearch; subst out.
  apply scatter_add_length in Hsc. unfold zeros in Hsc.
  now rewrite repeat_length in Hsc.
Qed.

(** Every row of the result is the scatter of one row of labels. *)
Lemma scores_row_inv (T : R) (scores : list (list R)) (orow : list R) :
  search_k s query k T = Ok (scores, inputs, I_) ->
  In orow scores ->
  exists r lrow,
    (r < length query)%nat /\
    nth_error labels r = Some lrow /\
    scatter_add_row (repeat 0%R (Z.to_nat (vocab_size s))) lrow (weights D T r)
    = Ok orow.
Proof.
  intros Hsearch Hin.
  destruct (In_nth_error _ _ Hin) as [r Hr].
  assert (Hlt : (r < length query)%nat).
  { rewrite <- (scores_rows T scores Hsearch). apply nth_error_Some. congruence. }
  destruct (nth_error labels r) as [lrow|] eqn:Hl.
  - destruct (search_k_row T scores r lrow Hsearch Hl) as [orow' [Ho Hrow]].
    exists r, lrow. repeat split; auto. congruence.
  - apply nth_error_None in Hl. rewrite labels_rows in Hl. lia.
Qed.

End SearchFacts.

Section SearchProperties.

Context {F : Faiss} {P : Projection F} {C : Constants} {N : Float64}.

Import Torch TorchFacts BatchFacts.

(** C1. Score-mass conservation: when the index returns [k >= 1] neighbors
    for every query and every retrieved label is a vocabulary position, the
    search returns, and every row of the score matrix sums to 1.  The
    weights are real numbers here, so the sum is exact; the temperature is
    taken non-zero, where the division of the source is a number. *)
Theorem search_k_rows_sum_to_one
        (s : DataStore) (query : list Vec) (k : Z) (T : R)
        (D : list (list R)) (I_ labels inputs : list (list Z)) :
  Retrieval s query k D I_ labels inputs ->
  labels_in_range s labels ->
  1 <= k ->
  T <> 0%R ->
  exists scores,
    search_k s query k T = Ok (scores, inputs, I_) /\
    length scores = length query /\
    Forall (fun row => sum row = 1%R) scores.
Proof.
  intros Hret Hrange Hk _.
  destruct (search_k_returns s query k D I_ labels inputs Hret T Hrange)
    as [scores Hsearch].
  exists scores. split; [exact Hsearch|]. split.
  - eapply scores_rows; eauto.
  - apply Forall_forall. intros orow Hin.
    destruct (scores_row_inv s query k D I_ labels inputs Hret T scores orow
                Hsearch Hin) as [r [lrow [Hr [Hl Hrow]]]].
    assert (Hlen : length lrow = Z.to_nat k).
    { pose proof (labels_cols s query k D I_ labels inputs Hret) as Hc.
      rewrite Forall_forall in Hc. apply Hc. eapply nth_error_In; eauto. }
    assert (Hw : length (weights D T r) = Z.to_nat k)
      by (eapply weights_length; eauto).
    apply scatter_add_row_sum in Hrow; [|congruence].
    rewrite Hrow, sum_repeat_zero. unfold weights.
    rewrite softmax_row_sum; [lra|].
    intros Hnil. unfold weights in Hw. rewrite Hnil in Hw. simpl in Hw. lia.
Qed.

(** C2. Duplicate-label aggregation: when two different neighbors [a] and
    [b] of query [r] carry the same label [x], the score at [x] is the sum
    of the softmax weights of all neighbors labelled [x], and it is
    strictly greater than the weight of [a] alone and of [b] alone. *)
Theorem search_k_duplicate_labels_accumulate
        (s : DataStore) (query : list Vec) (k : Z) (T : R)
        (D : list (list R)) (I_ labels inputs : list (list Z))
        (r a b : nat) (x : Z) :
  Retrieval s query k D I_ labels inputs ->
  labels_in_range s labels ->
  T <> 0%R ->
  a <> b ->
  nth_error (nth r labels []) a = Some x ->
  nth_error (nth r labels []) b = Some x ->
  exists scores,
    search_k s query k T = Ok (scores, inputs, I_) /\
    nth (Z.to_nat x) (nth r scores []) 0%R
    = mass_at x (nth r labels []) (weights D T r) /\
    (nth a (weights D T r) 0 < nth (Z.to_nat x) (nth r scores []) 0)%R /\
    (nth b (weights D T r) 0 < nth (Z.to_nat x) (nth r scores []) 0)%R.
Proof.
  intros Hret Hrange _ Hab Ha Hb.
  destruct (search_k_returns s query k D I_ labels inputs Hret T Hrange)
    as [scores Hsearch].
  exists scores. split; [exact Hsearch|].
  assert (Hr : exists lrow, nth_error labels r = Some lrow /\ nth r labels [] = lrow).
  { destruct (nth_error labels r) as [lrow|] eqn:Hl.
    - exists lrow. split; [reflexivity|]. now apply nth_error_nth.
    - apply nth_error_None in Hl. rewrite nth_overflow in Ha by exact Hl.
      destruct a; discriminate. }
  destruct Hr as [lrow [Hl Hnth]]. rewrite Hnth in *.
  destruct (search_k_row s query k D I_ labels inputs Hret T scores r lrow
              Hsearch Hl) as [orow [Ho Hrow]].
  rewrite (nth_error_nth _ _ _ Ho).
  assert (Hlt : (r < length query)%nat).
  { rewrite <- (labels_rows s query k D I_ labels inputs Hret).
    apply nth_error_Some. congruence. }
  assert (Hlen : length lrow = Z.to_nat k).
  { pose proof (labels_cols s query k D I_ labels inputs Hret) as Hc.
    rewrite Forall_forall in Hc. apply Hc. eapply nth_error_In; eauto. }
  assert (Hw : length (weights D T r) = Z.to_nat k)
    by (eapply weights_length; eauto).
  assert (Hx : 0 <= x).
  { unfold labels_in_range in Hrange. rewrite Forall_forall in Hrange.
    specialize (Hrange lrow (nth_error_In _ _ Hl)).
    rewrite Forall_forall in Hrange.
    specialize (Hrange x (nth_error_In _ _ Ha)). simpl in Hrange. lia. }
  assert (Hscore : nth (Z.to_nat x) orow 0%R = mass_at x lrow (weights D T r)).
  { rewrite (scatter_add_row_nth _ _ _ _ x Hrow Hx).
    rewrite nth_repeat. lra. }
  split; [exact Hscore|]. rewrite Hscore.
  assert (Ha' : (a < length lrow)%nat) by (apply nth_error_Some; congruence).
  assert (Hb' : (b < length lrow)%nat) by (apply nth_error_Some; congruence).
  assert (Hpos : forall j, (j < Z.to_nat k)%nat -> (0 < nth j (weights D T r) 0)%R).
  { intros j Hj. unfold weights. apply softmax_row_pos.
    unfold weights in Hw. rewrite softmax_row_length in Hw. lia. }
  assert (Hnn : Forall (fun w => (0 <= w)%R) (weights D T r)).
  { apply Forall_forall. intros w Hin.
    destruct (In_nth _ _ 0%R Hin) as [j [Hj Hw']]. subst w.
    apply Rlt_le, Hpos. lia. }
  pose proof (Hpos a ltac:(lia)) as Hpa.
  pose proof (Hpos b ltac:(lia)) as Hpb.
  destruct (Nat.lt_total a b) as [Hlt'|[Heq|Hgt]]; [|contradiction|].
  - pose proof (mass_at_ge2 x lrow (weights D T r) a b Hnn Ha Hb Hlt'
                  ltac:(lia)). lra.
  - pose proof (mass_at_ge2 x lrow (weights D T r) b a Hnn Hb Ha Hgt
                  ltac:(lia)). lra.
Qed.

(** C4. Shape of the result: the search returns a triple whose first
    component has one row of [vocab_size] scores per query, whose second
    component holds the input-token ids of the retrieved neighbors and
    whose third component is the id matrix of the index; the input-token
    and label matrices are read off the stores position by position, so
    they keep the retrieval order and repeat a value wherever an id is
    repeated. *)
Theorem search_k_result_shape
        (s : DataStore) (query : list Vec) (k : Z) (T : R)
        (D : list (list R)) (I_ labels inputs : list (list Z)) :
  Retrieval s query k D I_ labels inputs ->
  labels_in_range s labels ->
  exists scores label_store input_store,
    search_k s query k T = Ok (scores, inputs, I_) /\
    length scores = length query /\
    Forall (fun row => length row = Z.to_nat (vocab_size s)) scores /\
    label_id_store s = Some label_store /\
    input_id_store s = Some input_store /\
    Forall2 (Forall2 (fun id v => getitem label_store id = Ok v)) I_ labels /\
    Forall2 (Forall2 (fun id v => getitem input_store id = Ok v)) I_ inputs.
Proof.
  intros Hret Hrange.
  destruct (search_k_returns s query k D I_ labels inputs Hret T Hrange)
    as [scores Hsearch].
  pose proof Hret as Hret'.
  destruct Hret' as [Hv Hs HD HI HcD HcI [ls [Hls Hl]] [ins [Hins Hi]]].
  exists scores, ls, ins.
  split; [exact Hsearch|]. split; [eapply scores_rows; eauto|].
  split.
  - apply Forall_forall. intros orow Hin.
    destruct (scores_row_inv s query k D I_ labels inputs Hret T scores orow
                Hsearch Hin) as [r' [lrow [Hr [Hlr Hrow]]]].
    apply scatter_add_row_length in Hrow.
    now rewrite repeat_length in Hrow.
  - repeat split; auto using index_positionwise.
Qed.

Lemma in_range_dec (n l : Z) : {0 <= l < n} + {~ 0 <= l < n}.
Proof.
  destruct (Z_le_dec 0 l); destruct (Z_lt_dec l n);
    [left; lia | right; lia | right; lia | right; lia].
Qed.

(** C5, as the code has it.  The search has no temperature check: for every
    temperature, it returns when every retrieved label is a vocabulary
    position and raises the RuntimeError of the scatter when some label is
    not. *)
Theorem search_k_fails_only_on_label_out_of_range
        (s : DataStore) (query : list Vec) (k : Z) (T : R)
        (D : list (list R)) (I_ labels inputs : list (list Z)) :
  Retrieval s query k D I_ labels inputs ->
  (labels_in_range s labels ->
   exists scores, search_k s query k T = Ok (scores, inputs, I_)) /\
  (~ labels_in_range s labels ->
   search_k s query k T = Raise RuntimeError).
Proof.
  intros Hret. split.
  - intros Hrange. eapply search_k_returns; eauto.
  - intros Hbad.
    pose proof (search_k_is_scatter s query k D I_ labels inputs Hret T) as Hsearch.
    destruct (scatter_add _ _ _) as [scores|e] eqn:Hsc.
    + exfalso. apply Hbad.
      apply Forall_forall. intros lrow Hin.
      destruct (In_nth_error _ _ Hin) as [r Hr].
      destruct (search_k_row s query k D I_ labels inputs Hret T scores r lrow
                  Hsearch Hr) as [orow [_ Hrow]].
      destruct (Forall_Exists_dec (fun l => 0 <= l < vocab_size s)
                  (in_range_dec (vocab_size s)) lrow) as [Hall|Hex];
        [exact Hall|].
      exfalso.
      assert (Hlt : (r < length query)%nat).
      { rewrite <- (labels_rows s query k D I_ labels inputs Hret).
        apply nth_error_Some. congruence. }
      rewrite scatter_add_row_out_of_range in Hrow; [discriminate| |].
      * rewrite (weights_length s query k D I_ labels inputs Hret) by exact Hlt.
        pose proof (labels_cols s query k D I_ labels inputs Hret) as Hc.
        rewrite Forall_forall in Hc. apply Hc. exact Hin.
      * rewrite repeat_length.
        destruct Hret as [Hv _ _ _ _ _ _ _].
        eapply Exists_impl; [|exact Hex].
        intros l Hl. simpl in Hl. lia.
    + rewrite Hsearch. f_equal. eapply scatter_add_raises; eauto.
Qed.

End SearchProperties.

(** ** What the methods leave untouched *)

Section Frames.

Context {F : Faiss} {P : Projection F} {C : Constants} {N : Float64}.
Context {X : Type} (obs : World -> X).

Lemma keeps_ret {A} (a : A) : keeps obs (ret a).
Proof. intros w; reflexivity. Qed.

Lemma keeps_lift {A} (r : result A) : keeps obs (lift r).
Proof. intros w; reflexivity. Qed.

Lemma keeps_raise {A} (e : exn) : keeps obs (@raise _ _ A e).
Proof. intros w; reflexivity. Qed.

Lemma keeps_get_self : keeps obs get_self.
Proof. intros w; reflexivity. Qed.

Lemma keeps_get_disk : keeps obs get_disk.
Proof. intros w; reflexivity. Qed.

Lemma keeps_bind {A B} (m : M A) (f : A -> M B) :
  keeps obs m -> (forall a, keeps obs (f a)) -> keeps obs (bind m f).
Proof.
  intros Hm Hf w. unfold bind.
  specialize (Hm w). destruct (m w) as [[a|e] w1]; simpl in *.
  - rewrite Hf. exact Hm.
  - exact Hm.
Qed.

Lemma keeps_try_except {A} (m : M A) (h : exn -> M A) :
  keeps obs m -> (forall e, keeps obs (h e)) -> keeps obs (try_except m h).
Proof.
  intros Hm Hh w. unfold try_except.
  specialize (Hm w). destruct (m w) as [[a|e] w1]; simpl in *.
  - exact Hm.
  - rewrite Hh. exact Hm.
Qed.

Lemma keeps_modify_self (f : DataStore -> DataStore) :
  (forall w, obs {| self := f (self w); disk := disk w |} = obs w) ->
  keeps obs (modify_self f).
Proof. intros Hf w. apply Hf. Qed.

Lemma keeps_put_disk (fs : FS) :
  (forall w, obs {| self := self w; disk := fs |} = obs w) ->
  keeps obs (put_disk fs).
Proof. intros Hf w. apply Hf. Qed.

End Frames.

Create HintDb keeps.
#[local] Hint Resolve keeps_ret keeps_lift keeps_raise keeps_get_self
  keeps_get_disk keeps_modify_self keeps_put_disk : keeps.

(** Walks through a method body, one bind at a time. *)
Ltac keeps_step :=
  match goal with
  | |- keeps _ (bind _ _) => apply keeps_bind
  | |- keeps _ (try_except _ _) => apply keeps_try_except
  | |- forall _, _ => intro
  | |- keeps _ (match ?x with _ => _ end) => destruct x
  | |- keeps _ (if ?b then _ else _) => destruct b
  | |- keeps _ _ => solve [auto with keeps]
  end.

Ltac keeps_tac := repeat keeps_step.

Section VocabFrame.

Context {F : Faiss} {P : Projection F} {C : Constants} {N : Float64}.

Lemma torch_save_keeps_self dir name f : keeps the_self (torch_save dir name f).
Proof. unfold torch_save. keeps_tac. Qed.

Lemma torch_load_keeps {X} (obs : World -> X) dir name :
  keeps obs (torch_load dir name).
Proof. unfold torch_load. keeps_tac. Qed.

Lemma faiss_write_index_keeps_self ix dir name :
  keeps the_self (faiss_write_index ix dir name).
Proof. unfold faiss_write_index. keeps_tac. Qed.

Lemma faiss_read_index_keeps {X} (obs : World -> X) dir name :
  keeps obs (faiss_read_index dir name).
Proof. unfold faiss_read_index. keeps_tac. Qed.

Lemma read_shard_keeps {X} (obs : World -> X) dir name acc :
  keeps obs (read_shard dir name acc).
Proof.
  unfold read_shard. destruct acc as [[ks ls] ins].
  keeps_tac; apply torch_load_keeps.
Qed.

Lemma read_shards_keeps {X} (obs : World -> X) dir names :
  forall acc, keeps obs (read_shards dir names acc).
Proof.
  induction names as [|name names IH]; intros acc; simpl.
  - apply keeps_ret.
  - apply keeps_bind; [apply read_shard_keeps | exact IH].
Qed.

Lemma read_feature_files_keeps {X} (obs : World -> X) dir p :
  keeps obs (read_feature_files dir p).
Proof.
  unfold read_feature_files. keeps_tac. apply read_shards_keeps.
Qed.

Lemma self_to_vocab {A} (m : M A) : keeps the_self m -> keeps the_vocab_size m.
Proof.
  intros H w. specialize (H w). unfold the_vocab_size, the_self in *.
  now rewrite H.
Qed.

Lemma load_keeps_vocab dir : keeps the_vocab_size (load dir).
Proof.
  unfold load. keeps_tac;
    try apply faiss_read_index_keeps; apply torch_load_keeps.
Qed.

Lemma train_index_keeps_vocab ks : keeps the_vocab_size (train_index ks).
Proof. unfold train_index. keeps_tac. Qed.

Lemma add_keys_keeps_vocab ks : keeps the_vocab_size (add_keys ks).
Proof. unfold add_keys. keeps_tac. Qed.

Lemma save_keeps_self dir : keeps the_self (save dir).
Proof.
  unfold save. keeps_tac;
    try apply faiss_write_index_keeps_self; apply torch_save_keeps_self.
Qed.

Lemma whiten_keys_keeps_self dir ks : keeps the_self (whiten_keys dir ks).
Proof. unfold whiten_keys. keeps_tac; apply torch_save_keeps_self. Qed.

Lemma read_and_set_stores_keeps_vocab dir p :
  keeps the_vocab_size (read_and_set_stores dir p).
Proof.
  unfold read_and_set_stores. keeps_tac. apply read_feature_files_keeps.
Qed.

Lemma read_features_and_train_keeps_vocab fd od p :
  keeps the_vocab_size (read_features_and_train fd od p).
Proof.
  unfold read_features_and_train. keeps_tac.
  - apply read_and_set_stores_keeps_vocab.
  - apply self_to_vocab, whiten_keys_keeps_self.
  - apply train_index_keeps_vocab.
  - apply add_keys_keeps_vocab.
  - apply self_to_vocab, save_keeps_self.
Qed.

(** A history without [set_vocab_size] leaves the vocabulary size as it
    was. *)
Lemma run_calls_keeps_vocab (cs : list call) :
  never_sets_vocab_size cs ->
  forall w, vocab_size (self (run_calls cs w)) = vocab_size (self w).
Proof.
  unfold never_sets_vocab_size.
  induction cs as [|c cs IH]; intros Hcs w; simpl in *; [reflexivity|].
  apply andb_prop in Hcs as [Hc Hcs]. rewrite (IH Hcs).
  destruct c; simpl in Hc; try discriminate; simpl.
  - apply (load_keeps_vocab saved_dir w).
  - apply (train_index_keeps_vocab key_store w).
  - apply (add_keys_keeps_vocab keys_to_add w).
  - apply (self_to_vocab _ (save_keeps_self output_dir) w).
  - apply (read_features_and_train_keeps_vocab feature_dir output_dir percentage w).
Qed.

End VocabFrame.

(** ** The vocabulary guard and the training step *)

Section LifecycleProperties.

Context {F : Faiss} {P : Projection F} {C : Constants} {N : Float64}.

Lemma search_k_guard (s : DataStore) (query : list Vec) (k : Z) (T : R) :
  vocab_size s < 1 ->
  search_k s query k T = Raise (AssertionError vocab_assert_msg).
Proof.
  intros Hv. unfold search_k.
  replace (1 <=? vocab_size s) with false by (symmetry; apply Z.leb_gt; lia).
  reflexivity.
Qed.

Lemma search_k_guard_passes (s : DataStore) (query : list Vec) (k : Z) (T : R) :
  1 <= vocab_size s ->
  search_k s query k T = search_k_body s query k T.
Proof.
  intros Hv. unfold search_k.
  replace (1 <=? vocab_size s) with true by (symmetry; apply Z.leb_le; lia).
  reflexivity.
Qed.

(** C7. On an instance whose vocabulary size has not been set since
    construction, whatever other methods were called on it, every search
    raises the vocabulary assertion and produces no scores; after
    [set_vocab_size n] with [n >= 1] the assertion passes and the search
    goes on to query the index. *)
Theorem search_requires_vocab_size
        (dim : Z) (a : option Args) (fs : FS) (cs : list call)
        (w : World) (n : Z) (query : list Vec) (k : Z) (T : R) :
  never_sets_vocab_size cs ->
  1 <= n ->
  search_k (self (run_calls cs {| self := DataStore_init dim a; disk := fs |}))
           query k T
  = Raise (AssertionError vocab_assert_msg) /\
  fst (set_vocab_size n w) = Ok tt /\
  search_k (self (snd (set_vocab_size n w))) query k T
  = search_k_body (self (snd (set_vocab_size n w))) query k T.
Proof.
  intros Hcs Hn. split; [|split].
  - apply search_k_guard. rewrite run_calls_keeps_vocab by exact Hcs.
    simpl. lia.
  - reflexivity.
  - apply search_k_guard_passes. simpl. exact Hn.
Qed.

(** C10. The guard is a positivity check against the sentinel of the
    constructor: a fresh instance has vocabulary size -1, a search on any
    instance with vocabulary size below 1 raises the vocabulary assertion,
    and after [set_vocab_size n] with [n <= 0] every later search, whatever
    other methods are called in between, raises it exactly as a search on a
    fresh instance does. *)
Theorem vocab_guard_is_positivity_check
        (s : DataStore) (dim : Z) (a : option Args)
        (w : World) (n : Z) (cs : list call)
        (query : list Vec) (k : Z) (T : R) :
  vocab_size s < 1 ->
  n <= 0 ->
  never_sets_vocab_size cs ->
  vocab_size (DataStore_init dim a) = -1 /\
  search_k s query k T = Raise (AssertionError vocab_assert_msg) /\
  search_k (self (run_calls cs (snd (set_vocab_size n w)))) query k T
  = Raise (AssertionError vocab_assert_msg) /\
  search_k (self (run_calls cs (snd (set_vocab_size n w)))) query k T
  = search_k (DataStore_init dim a) query k T.
Proof.
  intros Hs Hn Hcs.
  assert (Hset : search_k (self (run_calls cs (snd (set_vocab_size n w)))) query k T
                 = Raise (AssertionError vocab_assert_msg)).
  { apply search_k_guard. rewrite run_calls_keeps_vocab by exact Hcs.
    simpl. lia. }
  split; [reflexivity|]. split; [apply search_k_guard; exact Hs|].
  split; [exact Hset|].
  rewrite Hset. symmetry. apply search_k_guard. simpl. lia.
Qed.

(** What one call of [train_index] does. *)
Lemma train_index_run (ks : list Vec) (w : World) :
  train_index ks w =
  match index_train (index (self w)) ks with
  | Ok ix => (Ok tt, {| self := with_index (self w) (index_gpu_to_cpu ix);
                        disk := disk w |})
  | Raise e => (Raise e, w)
  end.
Proof.
  unfold train_index, bind, get_self, lift, modify_self. simpl.
  destruct (index_train (index (self w)) ks); reflexivity.
Qed.

(** C6, as the code has it.  [train_index] has no lifecycle check: on an
    instance that a first call has already trained, a second call hands its
    keys to the training routine of the index again; it raises only what
    that routine raises, and otherwise replaces the trained index by the
    retrained one. *)
Theorem train_index_has_no_lifecycle_guard
        (w w1 : World) (ks1 ks2 : list Vec) :
  train_index ks1 w = (Ok tt, w1) ->
  exists ix1,
    index_train (index (self w)) ks1 = Ok ix1 /\
    index (self w1) = index_gpu_to_cpu ix1 /\
    train_index ks2 w1 =
    match index_train (index_gpu_to_cpu ix1) ks2 with
    | Ok ix => (Ok tt, {| self := with_index (self w1) (index_gpu_to_cpu ix);
                          disk := disk w1 |})
    | Raise e => (Raise e, w1)
    end.
Proof.
  intros H1. rewrite train_index_run in H1.
  destruct (index_train (index (self w)) ks1) as [ix1|e] eqn:Hix; [|discriminate].
  inversion H1; subst w1. exists ix1.
  split; [reflexivity|]. split; [reflexivity|].
  apply train_index_run.
Qed.

End LifecycleProperties.

(** ** The file system *)

Section FileSystemFacts.

Context {F : Faiss} {P : Projection F}.

Lemma assoc_set_same {A} (k : string) (v : A) (l : list (string * A)) :
  assoc k (assoc_set k v l) = Some v.
Proof.
  induction l as [|[k' v'] l IH]; simpl.
  - now rewrite String.eqb_refl.
  - destruct (String.eqb k k') eqn:E; simpl.
    + now rewrite String.eqb_refl.
    + now rewrite E.
Qed.

Lemma assoc_set_other {A} (k k' : string) (v : A) (l : list (string * A)) :
  k' <> k -> assoc k' (assoc_set k v l) = assoc k' l.
Proof.
  intros Hne. induction l as [|[k0 v0] l IH]; simpl.
  - destruct (String.eqb_spec k' k); [contradiction|reflexivity].
  - destruct (String.eqb_spec k k0) as [->|Hk]; simpl.
    + destruct (String.eqb_spec k' k0); [contradiction|reflexivity].
    + destruct (String.eqb_spec k' k0); [reflexivity|exact IH].
Qed.

(** A file reads back as written. *)
Lemma fs_read_write_same (fs fs' : FS) (dir name : string) (f : File) :
  fs_write fs dir name f = Ok fs' -> fs_read fs' dir name = Ok f.
Proof.
  unfold fs_write, fs_read. intros H.
  destruct (assoc dir fs) as [entries|]; [|discriminate].
  inversion H; subst. now rewrite !assoc_set_same.
Qed.

(** Writing one file leaves the other files of the directory alone. *)
Lemma fs_read_write_other (fs fs' : FS) (dir name name' : string) (f : File) :
  fs_write fs dir name f = Ok fs' ->
  name' <> name ->
  fs_read fs' dir name' = fs_read fs dir name'.
Proof.
  unfold fs_write, fs_read. intros H Hne.
  destruct (assoc dir fs) as [entries|] eqn:Hdir; [|discriminate].
  inversion H; subst. rewrite assoc_set_same.
  now rewrite assoc_set_other.
Qed.

End FileSystemFacts.

(** ** The methods, one run at a time *)

Section Runs.

Context {F : Faiss} {P : Projection F} {C : Constants} {N : Float64}.

Lemma torch_save_run (dir name : string) (f : File) (w : World) :
  torch_save dir name f w =
  match fs_write (disk w) dir name f with
  | Ok fs' => (Ok tt, {| self := self w; disk := fs' |})
  | Raise _ => (Raise RuntimeError, w)
  end.
Proof.
  unfold torch_save, bind, get_disk, lift, put_disk. simpl.
  destruct (fs_write (disk w) dir name f); reflexivity.
Qed.

Lemma torch_load_run (dir name : string) (w : World) :
  torch_load dir name w = (fs_read (disk w) dir name, w).
Proof. reflexivity. Qed.

Lemma faiss_write_index_run (ix : Index) (dir name : string) (w : World) :
  faiss_write_index ix dir name w =
  match serialize_index ix with
  | Ok b =>
      match fs_write (disk w) dir name (FIndex b) with
      | Ok fs' => (Ok tt, {| self := self w; disk := fs' |})
      | Raise _ => (Raise RuntimeError, w)
      end
  | Raise e => (Raise e, w)
  end.
Proof.
  unfold faiss_write_index, bind, get_disk, lift, put_disk. simpl.
  destruct (serialize_index ix); [|reflexivity].
  destruct (fs_write (disk w) dir name (FIndex a)); reflexivity.
Qed.

Lemma add_keys_run (ks : list Vec) (w : World) :
  add_keys ks w =
  match index_add (index (self w)) ks with
  | Ok ix => (Ok tt, {| self := with_index (self w) ix; disk := disk w |})
  | Raise e => (Raise e, w)
  end.
Proof.
  unfold add_keys, bind, get_self, lift, modify_self. simpl.
  destruct (index_add (index (self w)) ks); reflexivity.
Qed.

(** A save that returns has written the serialized index and both id
    stores, in this order, and has left the instance alone. *)
Lemma save_returns (dir : string) (w w' : World) :
  save dir w = (Ok tt, w') ->
  self w' = self w /\
  exists b labels inputs fs1 fs2,
    serialize_index (index (self w)) = Ok b /\
    label_id_store (self w) = Some labels /\
    input_id_store (self w) = Some inputs /\
    fs_write (disk w) dir INDEX_FILE (FIndex b) = Ok fs1 /\
    fs_write fs1 dir TOKEN_ID_FILE (FIds labels) = Ok fs2 /\
    fs_write fs2 dir INPUT_ID_FILE (FIds inputs) = Ok (disk w').
Proof.
  unfold save, bind, try_except, get_self, lift, raise. simpl.
  rewrite faiss_write_index_run.
  destruct (serialize_index (index (self w))) as [b|e]; simpl; [|discriminate].
  destruct (fs_write (disk w) dir INDEX_FILE (FIndex b)) as [fs1|e] eqn:H1;
    simpl; [|discriminate].
  destruct (label_id_store (self w)) as [labels|]; simpl; [|discriminate].
  rewrite torch_save_run. simpl.
  destruct (fs_write fs1 dir TOKEN_ID_FILE (FIds labels)) as [fs2|e] eqn:H2;
    simpl; [|discriminate].
  destruct (input_id_store (self w)) as [inputs|]; simpl; [|discriminate].
  rewrite torch_save_run. simpl.
  destruct (fs_write fs2 dir INPUT_ID_FILE (FIds inputs)) as [fs3|e] eqn:H3;
    simpl; [|discriminate].
  intros H. inversion H; subst. simpl. split; [reflexivity|].
  exists b, labels, inputs, fs1, fs2. repeat split; auto.
Qed.

(** What [load] does on a directory holding the three files. *)
Lemma load_run (dir : string) (w : World) (b : Blob) (ix : Index)
      (labels inputs : list Z) :
  fs_read (disk w) dir INDEX_FILE = Ok (FIndex b) ->
  deserialize_index b = Ok ix ->
  fs_read (disk w) dir TOKEN_ID_FILE = Ok (FIds labels) ->
  fs_read (disk w) dir INPUT_ID_FILE = Ok (FIds inputs) ->
  load dir w =
  (Ok tt,
   {| self := with_input_id_store
                (with_label_id_store (with_index (self w) ix) labels) inputs;
      disk := disk w |}).
Proof.
  intros Hix Hde Hl Hi.
  unfold load, bind, faiss_read_index, get_disk, lift, modify_self. simpl.
  rewrite Hix, Hde, Hl. simpl. rewrite Hi. reflexivity.
Qed.

End Runs.

(** ** Persistence *)

Section PersistenceProperties.

Context {F : Faiss} {P : Projection F} {C : Constants} {N : Float64}.

Lemma saved_names_apart :
  saved_names_distinct ->
  INDEX_FILE <> TOKEN_ID_FILE /\
  INDEX_FILE <> INPUT_ID_FILE /\
  TOKEN_ID_FILE <> INPUT_ID_FILE.
Proof.
  unfold saved_names_distinct. intros H.
  inversion H as [|? ? H1 H']; subst.
  inversion H' as [|? ? H2 _]; subst.
  simpl in H1, H2. repeat split; intros E; [apply H1|apply H1|apply H2]; auto.
Qed.

(** After a save that returns, the directory holds the three files. *)
Lemma saved_files (dir : string) (w w' : World) :
  saved_names_distinct ->
  save dir w = (Ok tt, w') ->
  exists b labels inputs,
    serialize_index (index (self w)) = Ok b /\
    label_id_store (self w) = Some labels /\
    input_id_store (self w) = Some inputs /\
    fs_read (disk w') dir INDEX_FILE = Ok (FIndex b) /\
    fs_read (disk w') dir TOKEN_ID_FILE = Ok (FIds labels) /\
    fs_read (disk w') dir INPUT_ID_FILE = Ok (FIds inputs).
Proof.
  intros Hnames Hsave.
  destruct (saved_names_apart Hnames) as [H12 [H13 H23]].
  destruct (save_returns dir w w' Hsave)
    as [_ [b [labels [inputs [fs1 [fs2 [Hb [Hl [Hi [W1 [W2 W3]]]]]]]]]]].
  exists b, labels, inputs. repeat split; auto.
  - rewrite (fs_read_write_other _ _ _ _ _ _ W3) by exact H13.
    rewrite (fs_read_write_other _ _ _ _ _ _ W2) by exact H12.
    eapply fs_read_write_same; eauto.
  - rewrite (fs_read_write_other _ _ _ _ _ _ W3) by exact H23.
    eapply fs_read_write_same; eauto.
  - eapply fs_read_write_same; eauto.
Qed.

(** C3. Persistence round trip: when a save returns, a load of the same
    directory into a fresh instance returns too, and once both instances
    are given the same vocabulary size every search gives the same result
    on the loaded instance as on the saved one.  The index library is
    taken to read back what it wrote, and the three file names to differ. *)
Theorem save_then_load_preserves_search
        (w w1 : World) (dir : string) (dim : Z) (a : option Args) :
  serialization_faithful ->
  saved_names_distinct ->
  save dir w = (Ok tt, w1) ->
  exists w2,
    load dir {| self := DataStore_init dim a; disk := disk w1 |} = (Ok tt, w2) /\
    forall (v : Z) (query : list Vec) (k : Z) (T : R),
      search_k (self (snd (set_vocab_size v w2))) query k T
      = search_k (self (snd (set_vocab_size v w))) query k T.
Proof.
  intros Hser Hnames Hsave.
  destruct (saved_files dir w w1 Hnames Hsave)
    as [b [labels [inputs [Hb [Hl [Hi [R1 [R2 R3]]]]]]]].
  destruct (Hser _ _ Hb) as [ix' [Hde Hsame]].
  eexists. split.
  - apply (load_run dir _ b ix' labels inputs); simpl; assumption.
  - intros v query k T. unfold search_k, search_k_body. simpl.
    rewrite Hsame, Hl, Hi. reflexivity.
Qed.

End PersistenceProperties.

(** ** The build *)

Section BuildFacts.

Context {F : Faiss} {P : Projection F} {C : Constants} {N : Float64}.

Lemma read_feature_files_reads_only (fd : string) (p : Z) (w : World) :
  snd (read_feature_files fd p w) = w.
Proof. apply (read_feature_files_keeps (fun w => w)). Qed.

Lemma read_shards_reads_only (fd : string) (names : list string) acc (w : World) :
  snd (read_shards fd names acc w) = w.
Proof. apply (read_shards_keeps (fun w => w)). Qed.

Lemma read_shard_reads_only (fd name : string) acc (w : World) :
  snd (read_shard fd name acc w) = w.
Proof. apply (read_shard_keeps (fun w => w)). Qed.

(** One aligned shard keeps the three accumulators aligned. *)
Lemma read_shard_aligned (fd name : string) (w w' : World)
      (ks ks' : list Vec) (ls ls' ins ins' : list Z) :
  read_shard fd name (ks, ls, ins) w = (Ok (ks', ls', ins'), w') ->
  shard_alignedb (disk w) fd name = true ->
  length ks = length ls ->
  length ls = length ins ->
  length ks' = length ls' /\ length ls' = length ins'.
Proof.
  unfold read_shard, shard_alignedb, bind, try_except, lift, raise, ret.
  destruct (Py.split_head name RAW_FEATURE_VALUE_SUFFIX) as [fid|e];
    [|discriminate].
  rewrite !torch_load_run. simpl.
  destruct (fs_read (disk w) fd (fid ++ RAW_FEATURE_KEY_SUFFIX)) as [fk|e];
    simpl; [|discriminate].
  destruct (fs_read (disk w) fd (fid ++ RAW_FEATURE_VALUE_SUFFIX)) as [fv|e];
    simpl; [|discriminate].
  destruct (fs_read (disk w) fd (fid ++ RAW_FEATURE_TOKEN_SUFFIX)) as [ft|e];
    simpl; [|discriminate].
  destruct fk; simpl; try discriminate.
  destruct fv; simpl; try discriminate.
  destruct ft; simpl; try discriminate.
  intros H Hal H1 H2. inversion H; subst.
  apply andb_prop in Hal as [E1 E2].
  apply Nat.eqb_eq in E1. apply Nat.eqb_eq in E2.
  rewrite !length_app. lia.
Qed.

Lemma read_shards_cons (fd name : string) (names : list string) acc (w : World) :
  read_shards fd (name :: names) acc w =
  match read_shard fd name acc w with
  | (Ok acc', w1) => read_shards fd names acc' w1
  | (Raise e, w1) => (Raise e, w1)
  end.
Proof. reflexivity. Qed.

Lemma read_shards_aligned (fd : string) (names : list string) :
  forall (w w' : World) (ks ks' : list Vec) (ls ls' ins ins' : list Z),
    read_shards fd names (ks, ls, ins) w = (Ok (ks', ls', ins'), w') ->
    forallb (shard_alignedb (disk w) fd) names = true ->
    length ks = length ls ->
    length ls = length ins ->
    length ks' = length ls' /\ length ls' = length ins'.
Proof.
  induction names as [|name names IH]; intros w w' ks ks' ls ls' ins ins' H Hal H1 H2.
  - simpl in H. inversion H; subst. auto.
  - simpl in Hal. apply andb_prop in Hal as [Hn Hrest].
    rewrite read_shards_cons in H.
    pose proof (read_shard_reads_only fd name (ks, ls, ins) w) as Hw.
    destruct (read_shard fd name (ks, ls, ins) w) as [[[[ks1 ls1] ins1]|e] w1] eqn:Hs;
      [|discriminate].
    simpl in Hw. subst w1.
    destruct (read_shard_aligned _ _ _ _ _ _ _ _ _ _ Hs Hn H1 H2) as [A1 A2].
    eapply IH; eauto.
Qed.

Lemma forallb_firstn {A} (f : A -> bool) (n : nat) (l : list A) :
  forallb f l = true -> forallb f (firstn n l) = true.
Proof.
  revert n; induction l as [|x l IH]; intros [|n] H; simpl in *; auto.
  apply andb_prop in H as [Hx Hl]. rewrite Hx. simpl. auto.
Qed.

Lemma forallb_filter {A} (f g : A -> bool) (l : list A) :
  forallb f l = true -> forallb f (filter g l) = true.
Proof.
  induction l as [|x l IH]; intros H; simpl in *; auto.
  apply andb_prop in H as [Hx Hl].
  destruct (g x); simpl; [rewrite Hx|]; auto.
Qed.

Lemma np_stack_keys_ok (rows rows' : list Vec) :
  np_stack_keys rows = Ok rows' -> rows' = rows.
Proof.
  unfold np_stack_keys. destruct rows as [|r rows]; [discriminate|].
  destruct (forallb _ rows); congruence.
Qed.

Lemma np_stack_ids_ok (rows rows' : list Z) :
  np_stack_ids rows = Ok rows' -> rows' = rows.
Proof. destruct rows; simpl; congruence. Qed.

(** With aligned shards the three stacked stores have one length. *)
Lemma read_feature_files_aligned (fd : string) (p : Z) (w w' : World)
      (ks : list Vec) (ls ins : list Z) :
  shards_aligned (disk w) fd ->
  read_feature_files fd p w = (Ok (ks, ls, ins), w') ->
  length ks = length ls /\ length ls = length ins.
Proof.
  intros Hal. unfold read_feature_files, bind, get_disk, lift, ret. simpl.
  destruct (fs_listdir (disk w) fd) as [names|e] eqn:Hls; [|discriminate].
  specialize (Hal names Hls).
  set (files := Py.slice_to _ _).
  pose proof (read_shards_reads_only fd files ([], [], []) w) as Hw.
  destruct (read_shards fd files ([], [], []) w) as [[[[ks1 ls1] ins1]|e] w1] eqn:Hs;
    [|discriminate].
  simpl in Hw. subst w1.
  assert (Hfiles : forallb (shard_alignedb (disk w) fd) files = true).
  { unfold files, Py.slice_to.
    destruct (0 <=? _); apply forallb_firstn, forallb_filter; exact Hal. }
  destruct (read_shards_aligned fd files _ _ _ _ _ _ _ _ Hs Hfiles eq_refl eq_refl)
    as [A1 A2].
  destruct (np_stack_keys ks1) as [ks2|e] eqn:Hk; simpl; [|discriminate].
  destruct (np_stack_ids ls1) as [ls2|e] eqn:Hl; simpl; [|discriminate].
  destruct (np_stack_ids ins1) as [ins2|e] eqn:Hi; simpl; [|discriminate].
  intros H. inversion H; subst.
  apply np_stack_keys_ok in Hk. apply np_stack_ids_ok in Hl.
  apply np_stack_ids_ok in Hi. subst. auto.
Qed.

(** Lines 160-164 read the disk and set the two stores. *)
Lemma read_and_set_stores_returns (fd : string) (p : Z) (w w1 : World)
      (ks : list Vec) :
  read_and_set_stores fd p w = (Ok ks, w1) ->
  exists ls ins,
    read_feature_files fd p w = (Ok (ks, ls, ins), w) /\
    w1 = {| self := with_input_id_store (with_label_id_store (self w) ls) ins;
            disk := disk w |}.
Proof.
  unfold read_and_set_stores, bind, modify_self, ret.
  pose proof (read_feature_files_reads_only fd p w) as Hw.
  destruct (read_feature_files fd p w) as [[[[ks0 ls] ins]|e] w0]; [|discriminate].
  simpl in Hw. subst w0. simpl.
  intros H. inversion H; subst. eauto.
Qed.

(** Lines 166-177 with whitening switched on. *)
Lemma whiten_keys_on (od : string) (ks ks' : list Vec) (w w' : World) (a : Args) :
  args (self w) = Some a ->
  args_whitening a = true ->
  whiten_keys od ks w = (Ok ks', w') ->
  exists kernel0 bias fs1,
    whitening ks = Ok (kernel0, bias) /\
    let kernel := if args_dim_reduction a =? 0 then kernel0
                  else kernel_columns kernel0 (d (self w)) in
    fs_write (disk w) od "kernel.pt" (FKernel kernel) = Ok fs1 /\
    fs_write fs1 od "bias.pt" (FBias bias) = Ok (disk w') /\
    self w' = self w /\
    transform_and_normalize ks kernel bias = Ok ks'.
Proof.
  intros Ha Hon. unfold whiten_keys, bind, get_self, lift. simpl.
  rewrite Ha. simpl. rewrite Hon.
  destruct (whitening ks) as [[kernel0 bias]|e]; [|discriminate].
  rewrite torch_save_run.
  destruct (fs_write (disk w) od "kernel.pt" _) as [fs1|e] eqn:W1; [|discriminate].
  rewrite torch_save_run. simpl.
  destruct (fs_write fs1 od "bias.pt" _) as [fs2|e] eqn:W2; [|discriminate].
  destruct (transform_and_normalize ks _ bias) as [ks2|e] eqn:Ht; [|discriminate].
  intros H. inversion H; subst. simpl.
  exists kernel0, bias, fs1. repeat split; auto.
Qed.

(** Lines 166-177 with whitening switched off. *)
Lemma whiten_keys_off (od : string) (ks ks' : list Vec) (w w' : World) (a : Args) :
  args (self w) = Some a ->
  args_whitening a = false ->
  whiten_keys od ks w = (Ok ks', w') ->
  ks' = ks /\ w' = w.
Proof.
  intros Ha Hoff. unfold whiten_keys, bind, get_self, lift, ret. simpl.
  rewrite Ha. simpl. rewrite Hoff. intros H. inversion H; auto.
Qed.

Lemma whiten_keys_rows (od : string) (ks ks' : list Vec) (w w' : World) :
  transform_keeps_rows ->
  whiten_keys od ks w = (Ok ks', w') ->
  length ks' = length ks /\ self w' = self w.
Proof.
  intros Hrows H.
  assert (Hself : self w' = self w).
  { pose proof (whiten_keys_keeps_self od ks w) as Hk.
    rewrite H in Hk. exact Hk. }
  split; [|exact Hself].
  destruct (args (self w)) as [a|] eqn:Ha.
  - destruct (args_whitening a) eqn:Hw.
    + destruct (whiten_keys_on od ks ks' w w' a Ha Hw H)
        as [k0 [b [fs1 [_ [_ [_ [_ Ht]]]]]]].
      eapply Hrows; eauto.
    + destruct (whiten_keys_off od ks ks' w w' a Ha Hw H) as [-> _]. reflexivity.
  - unfold whiten_keys, bind, get_self, lift in H. simpl in H.
    rewrite Ha in H. discriminate.
Qed.

(** The five statements of a build that returns. *)
Lemma read_features_and_train_returns (fd od : string) (p : Z) (w w' : World) :
  read_features_and_train fd od p w = (Ok tt, w') ->
  exists ks ks' w1 w2 w3 w4,
    read_and_set_stores fd p w = (Ok ks, w1) /\
    whiten_keys od ks w1 = (Ok ks', w2) /\
    train_index ks' w2 = (Ok tt, w3) /\
    add_keys ks' w3 = (Ok tt, w4) /\
    save od w4 = (Ok tt, w').
Proof.
  unfold read_features_and_train. unfold bind at 1.
  destruct (read_and_set_stores fd p w) as [[ks|e] w1] eqn:H1; [|discriminate].
  unfold bind at 1.
  destruct (whiten_keys od ks w1) as [[ks'|e] w2] eqn:H2; [|discriminate].
  unfold bind at 1.
  destruct (train_index ks' w2) as [[[]|e] w3] eqn:H3; [|discriminate].
  unfold bind at 1.
  destruct (add_keys ks' w3) as [[[]|e] w4] eqn:H4; [|discriminate].
  intros H. exists ks, ks', w1, w2, w3, w4.
  repeat split; try reflexivity; assumption.
Qed.

End BuildFacts.

Section BuildProperties.

Context {F : Faiss} {P : Projection F} {C : Constants} {N : Float64}.

(** The build points end in the world the build ends in. *)
Lemma build_points_last (fd od : string) (p : Z) (w : World) :
  last (build_points fd od p w) w = snd (read_features_and_train fd od p w).
Proof.
  unfold build_points, read_features_and_train. unfold bind at 1.
  destruct (read_and_set_stores fd p w) as [[ks|e] w1]; [|reflexivity].
  unfold bind at 1.
  destruct (whiten_keys od ks w1) as [[ks'|e] w2]; [|reflexivity].
  unfold bind at 1.
  destruct (train_index ks' w2) as [[[]|e] w3]; [|reflexivity].
  unfold bind at 1.
  destruct (add_keys ks' w3) as [[[]|e] w4]; reflexivity.
Qed.

(** The first build point is the world in which the stores have just been
    set. *)
Lemma build_points_head (fd od : string) (p : Z) (w : World) :
  exists rest,
    build_points fd od p w = snd (read_and_set_stores fd p w) :: rest.
Proof.
  unfold build_points.
  destruct (read_and_set_stores fd p w) as [[ks|e] w1]; simpl; eauto.
Qed.

(** C8. With whitening enabled, a build that returns has computed the
    kernel and the bias from the key store it read, has kept the first [d]
    columns of the kernel when dimension reduction is set, has transformed
    the key store with them, and has trained the index on the transformed
    key store and then added that same transformed key store to it; the
    kernel and the bias it applied are in the output directory.  The file
    names of [save] are taken not to be those of the projection. *)
Theorem whitening_applied_before_train_and_add
        (fd od : string) (p : Z) (w w' : World) (a : Args) :
  args (self w) = Some a ->
  args_whitening a = true ->
  projection_names_free ->
  read_features_and_train fd od p w = (Ok tt, w') ->
  exists ks ls ins kernel0 bias ks' ix1 ix2,
    read_feature_files fd p w = (Ok (ks, ls, ins), w) /\
    whitening ks = Ok (kernel0, bias) /\
    let kernel := if args_dim_reduction a =? 0 then kernel0
                  else kernel_columns kernel0 (d (self w)) in
    transform_and_normalize ks kernel bias = Ok ks' /\
    index_train (index (self w)) ks' = Ok ix1 /\
    index_add (index_gpu_to_cpu ix1) ks' = Ok ix2 /\
    index (self w') = ix2 /\
    fs_read (disk w') od "kernel.pt" = Ok (FKernel kernel) /\
    fs_read (disk w') od "bias.pt" = Ok (FBias bias).
Proof.
  intros Ha Hon [Hk Hb] Hrun.
  destruct (read_features_and_train_returns fd od p w w' Hrun)
    as [ks [ks' [w1 [w2 [w3 [w4 [H1 [H2 [H3 [H4 H5]]]]]]]]]].
  destruct (read_and_set_stores_returns fd p w w1 ks H1) as [ls [ins [Hread Hw1]]].
  assert (Ha1 : args (self w1) = Some a) by (subst w1; exact Ha).
  destruct (whiten_keys_on od ks ks' w1 w2 a Ha1 Hon H2)
    as [kernel0 [bias [fs1 [Hwh [W1 [W2 [Hself2 Ht]]]]]]].
  rewrite train_index_run in H3.
  destruct (index_train (index (self w2)) ks') as [ix1|e] eqn:Htrain; [|discriminate].
  inversion H3; subst w3. clear H3.
  rewrite add_keys_run in H4. simpl in H4.
  destruct (index_add (index_gpu_to_cpu ix1) ks') as [ix2|e] eqn:Hadd; [|discriminate].
  inversion H4; subst w4. clear H4.
  destruct (save_returns od _ w' H5)
    as [Hself [b [labels [inputs [fs2 [fs3 [_ [_ [_ [S1 [S2 S3]]]]]]]]]]].
  simpl in S1, Hself.
  assert (Hd : d (self w1) = d (self w)) by (subst w1; reflexivity).
  assert (Hix : index (self w2) = index (self w))
    by (rewrite Hself2; subst w1; reflexivity).
  rewrite Hd in W1, Ht. rewrite Hix in Htrain.
  exists ks, ls, ins, kernel0, bias, ks', ix1, ix2.
  split; [exact Hread|]. split; [exact Hwh|].
  split; [exact Ht|]. split; [exact Htrain|]. split; [exact Hadd|].
  split; [rewrite Hself; reflexivity|].
  assert (Hne : forall name, In name [INDEX_FILE; TOKEN_ID_FILE; INPUT_ID_FILE] ->
                             forall proj, ~ In proj [INDEX_FILE; TOKEN_ID_FILE; INPUT_ID_FILE] ->
                                          proj <> name).
  { intros name Hin proj Hnot E. subst. contradiction. }
  assert (Hkeep : forall proj,
             ~ In proj [INDEX_FILE; TOKEN_ID_FILE; INPUT_ID_FILE] ->
             fs_read (disk w') od proj = fs_read (disk w2) od proj).
  { intros proj Hproj.
    rewrite (fs_read_write_other _ _ _ _ _ _ S3)
      by (apply Hne; simpl; auto).
    rewrite (fs_read_write_other _ _ _ _ _ _ S2)
      by (apply Hne; simpl; auto).
    rewrite (fs_read_write_other _ _ _ _ _ _ S1)
      by (apply Hne; simpl; auto).
    reflexivity. }
  split.
  - rewrite (Hkeep _ Hk).
    rewrite (fs_read_write_other _ _ _ _ _ _ W2) by discriminate.
    eapply fs_read_write_same; eauto.
  - rewrite (Hkeep _ Hb). eapply fs_read_write_same; eauto.
Qed.

(** C9, as the code has it.  When every shard has matching row counts and
    the index starts empty, a build that returns ends with both id stores
    set and holding as many entries as the index holds vectors.  (The
    stores are set before the first vector is added, so the counts meet at
    the end of the build, not at every point of it.) *)
Theorem build_ends_with_matching_counts
        (fd od : string) (p : Z) (w w' : World) :
  IndexCounts ->
  transform_keeps_rows ->
  shards_aligned (disk w) fd ->
  index_ntotal (index (self w)) = 0%nat ->
  read_features_and_train fd od p w = (Ok tt, w') ->
  counts_agree (self w').
Proof.
  intros [Ctrain Cadd Ccpu] Hrows Hal Hempty Hrun.
  destruct (read_features_and_train_returns fd od p w w' Hrun)
    as [ks [ks' [w1 [w2 [w3 [w4 [H1 [H2 [H3 [H4 H5]]]]]]]]]].
  destruct (read_and_set_stores_returns fd p w w1 ks H1) as [ls [ins [Hread Hw1]]].
  destruct (read_feature_files_aligned fd p w w ks ls ins Hal Hread) as [A1 A2].
  destruct (whiten_keys_rows od ks ks' w1 w2 Hrows H2) as [Hlen Hself2].
  rewrite train_index_run in H3.
  destruct (index_train (index (self w2)) ks') as [ix1|e] eqn:Htrain; [|discriminate].
  inversion H3; subst w3. clear H3.
  rewrite add_keys_run in H4. simpl in H4.
  destruct (index_add (index_gpu_to_cpu ix1) ks') as [ix2|e] eqn:Hadd; [|discriminate].
  inversion H4; subst w4. clear H4.
  destruct (save_returns od _ w' H5) as [Hself _]. simpl in Hself.
  assert (Hn : index_ntotal ix2 = length ks).
  { rewrite (Cadd _ _ _ Hadd), Ccpu, (Ctrain _ _ _ Htrain), Hself2.
    subst w1. simpl. rewrite Hempty, Hlen. reflexivity. }
  exists ls, ins. rewrite Hself, Hself2. subst w1. simpl.
  repeat split; auto; lia.
Qed.

End BuildProperties.

(** * Further properties of the code *)

(** ** More on [search_k] *)

Module ScoreFacts.
Import Torch TorchFacts.

Local Open Scope R_scope.

Lemma mass_at_absent (x : Z) (index : list Z) :
  forall src, ~ In x index -> mass_at x index src = 0.
Proof.
  induction index as [|i index IH]; intros src Hnot; simpl; [reflexivity|].
  destruct src as [|w src]; [reflexivity|].
  destruct (Z.eqb_spec i x) as [->|_].
  - exfalso. apply Hnot. now left.
  - rewrite IH; [lra|]. intros Hin. apply Hnot. now right.
Qed.







Lemma nth_map_within (f : R -> R) (l : list R) (a : nat) :
  (a < length l)%nat -> nth a (map f l) 0 = f (nth a l 0).
Proof.
  intros Ha. rewrite (nth_indep _ 0 (f 0)) by (rewrite length_map; exact Ha).
  apply map_nth.
Qed.

(** The softmax weight falls as its argument falls. *)
Lemma softmax_row_monotone (xs : list R) (a b : nat) :
  (a < length xs)%nat ->
  (b < length xs)%nat ->
  nth b xs 0 <= nth a xs 0 ->
  nth b (softmax_row xs) 0 <= nth a (softmax_row xs) 0.
Proof.
  intros Ha Hb Hle. unfold softmax_row.
  assert (Hne : xs <> []) by (destruct xs; simpl in *; [lia|discriminate]).
  pose proof (sum_exp_pos xs Hne) as Hpos.
  rewrite !nth_map_within by assumption.
  apply Rmult_le_compat_r; [apply Rlt_le, Rinv_0_lt_compat; exact Hpos|].
  destruct Hle as [Hlt|Heq]; [left; now apply exp_increasing | right; now rewrite Heq].
Qed.

End ScoreFacts.

Module LookupFacts.
Import Torch.



(** An id outside [-n, n) is an IndexError. *)
Lemma getitem_outside (store : list Z) (i : Z) :
  ~ (- Z.of_nat (length store) <= i < Z.of_nat (length store)) ->
  getitem store i = Raise IndexError.
Proof.
  intros Hout. unfold getitem.
  destruct ((0 <=? i) && (i <? Z.of_nat (length store))) eqn:H1.
  - apply andb_prop in H1 as [Ha Hb].
    apply Z.leb_le in Ha. apply Z.ltb_lt in Hb. lia.
  - destruct ((- Z.of_nat (length store) <=? i) && (i <? 0)) eqn:H2;
      [|reflexivity].
    apply andb_prop in H2 as [Ha Hb].
    apply Z.leb_le in Ha. apply Z.ltb_lt in Hb. lia.
Qed.

Lemma getitem_raises (store : list Z) (i : Z) (e : exn) :
  getitem store i = Raise e -> e = IndexError.
Proof.
  unfold getitem.
  destruct ((0 <=? i) && (i <? Z.of_nat (length store))).
  - destruct (nth_error store _); congruence.
  - destruct ((- Z.of_nat (length store) <=? i) && (i <? 0)).
    + destruct (nth_error store _); congruence.
    + congruence.
Qed.

Lemma mapM_raises {A B} (f : A -> result B) (e0 : exn) (l : list A) :
  (forall a e, f a = Raise e -> e = e0) ->
  forall e, mapM f l = Raise e -> e = e0.
Proof.
  intros Hf. induction l as [|a l IH]; intros e H; simpl in H; [discriminate|].
  destruct (f a) as [b|e'] eqn:Ha; simpl in H.
  - destruct (mapM f l) as [bs|e'']; simpl in H; [discriminate|].
    inversion H; subst. now apply IH.
  - inversion H; subst. eapply Hf; eauto.
Qed.

(** A list with a failing element fails, with the one error its elements
    can raise. *)
Lemma mapM_Exists_raises {A B} (f : A -> result B) (e0 : exn) (l : list A) :
  (forall a e, f a = Raise e -> e = e0) ->
  Exists (fun a => is_ok (f a) = false) l ->
  mapM f l = Raise e0.
Proof.
  intros Hf Hex.
  destruct (mapM f l) as [out|e] eqn:H.
  - exfalso. apply mapM_Forall2 in H.
    induction H as [|a b l out Hab _ IH].
    + inversion Hex.
    + inversion Hex as [? ? Hbad|? ? Hrest]; subst.
      * rewrite Hab in Hbad. discriminate.
      * auto.
  - f_equal. eapply mapM_raises; eauto.
Qed.

Lemma index_outside_raises (store : list Z) (I_ : list (list Z)) :
  Exists (Exists (fun id => ~ (- Z.of_nat (length store) <= id
                               < Z.of_nat (length store)))) I_ ->
  index store I_ = Raise IndexError.
Proof.
  intros Hex. unfold index.
  apply mapM_Exists_raises.
  - intros row e. apply mapM_raises. apply getitem_raises.
  - eapply Exists_impl; [|exact Hex].
    intros row Hrow. simpl in Hrow.
    rewrite (mapM_Exists_raises (getitem store) IndexError row);
      [reflexivity | apply getitem_raises |].
    eapply Exists_impl; [|exact Hrow].
    intros id Hid. simpl in Hid. now rewrite getitem_outside.
Qed.

End LookupFacts.

Section SearchExtras.

Context {F : Faiss} {P : Projection F} {C : Constants} {N : Float64}.

Import TorchFacts BatchFacts ScoreFacts LookupFacts.


(** X2. A vocabulary position that is the label of no retrieved neighbor of
    a query has score 0 for that query. *)
Theorem search_k_score_zero_off_labels
        (s : DataStore) (query : list Vec) (k : Z) (T : R)
        (D : list (list R)) (I_ labels inputs : list (list Z))
        (scores : list (list R)) (r : nat) (lrow : list Z) (x : Z) :
  Retrieval s query k D I_ labels inputs ->
  search_k s query k T = Ok (scores, inputs, I_) ->
  nth_error labels r = Some lrow ->
  0 <= x ->
  ~ In x lrow ->
  nth (Z.to_nat x) (nth r scores []) 0%R = 0%R.
Proof.
  intros Hret Hsearch Hl Hx Hnot.
  destruct (search_k_row s query k D I_ labels inputs Hret T scores r lrow
              Hsearch Hl) as [orow [Ho Hrow]].
  rewrite (nth_error_nth _ _ _ Ho).
  rewrite (scatter_add_row_nth _ _ _ _ x Hrow Hx).
  rewrite nth_repeat, mass_at_absent by exact Hnot. lra.
Qed.

Lemma nth_neg_div_row (row : list R) (T : R) (a : nat) :
  (a < length row)%nat ->
  nth a (map (fun dist => (- dist / T)%R) row) 0%R = (- nth a row 0 / T)%R.
Proof.
  intros Ha. now rewrite nth_map_within.
Qed.

(** X3. With a positive temperature a neighbor that is no farther than
    another gets at least its weight. *)
Theorem softmax_weight_falls_with_distance
        (D : list (list R)) (T : R) (r a b : nat) :
  (0 < T)%R ->
  (a < length (nth r D []))%nat ->
  (b < length (nth r D []))%nat ->
  (nth a (nth r D []) 0 <= nth b (nth r D []) 0)%R ->
  (nth b (nth r (Torch.softmax (Torch.neg_div D T)) []) 0
   <= nth a (nth r (Torch.softmax (Torch.neg_div D T)) []) 0)%R.
Proof.
  intros HT Ha Hb Hle. rewrite nth_softmax_neg_div.
  apply softmax_row_monotone; try (rewrite length_map; assumption).
  rewrite !nth_neg_div_row by assumption.
  assert (0 < / T)%R by now apply Rinv_0_lt_compat.
  unfold Rdiv. nra.
Qed.

(** X4. With a negative temperature, which the search accepts, the order is
    reversed: the farther neighbor gets at least the weight of the nearer. *)
Theorem softmax_weight_rises_with_distance_below_zero
        (D : list (list R)) (T : R) (r a b : nat) :
  (T < 0)%R ->
  (a < length (nth r D []))%nat ->
  (b < length (nth r D []))%nat ->
  (nth a (nth r D []) 0 <= nth b (nth r D []) 0)%R ->
  (nth a (nth r (Torch.softmax (Torch.neg_div D T)) []) 0
   <= nth b (nth r (Torch.softmax (Torch.neg_div D T)) []) 0)%R.
Proof.
  intros HT Ha Hb Hle. rewrite nth_softmax_neg_div.
  apply softmax_row_monotone; try (rewrite length_map; assumption).
  rewrite !nth_neg_div_row by assumption.
  assert (/ T < 0)%R by now apply Rinv_lt_0_compat.
  unfold Rdiv. nra.
Qed.


(** X6. A neighbor id outside [-n, n), for a label store of [n] entries,
    fails the search with an IndexError. *)
Theorem search_k_id_outside_store_raises
        (s : DataStore) (query : list Vec) (k : Z) (T : R)
        (D : list (list R)) (I_ : list (list Z)) (store : list Z) :
  1 <= vocab_size s ->
  index_search (index s) query k = Ok (D, I_) ->
  label_id_store s = Some store ->
  Exists (Exists (fun id => ~ (- Z.of_nat (length store) <= id
                               < Z.of_nat (length store)))) I_ ->
  search_k s query k T = Raise IndexError.
Proof.
  intros Hv Hs Hstore Hex.
  unfold search_k, search_k_body.
  replace (1 <=? vocab_size s) with true by (symmetry; apply Z.leb_le; lia).
  simpl. rewrite Hs. simpl. rewrite Hstore. simpl.
  now rewrite index_outside_raises.
Qed.

End SearchExtras.

(** ** More on the lifecycle and on persistence *)

Section PersistenceExtras.

Context {F : Faiss} {P : Projection F} {C : Constants} {N : Float64}.

Lemma train_index_keeps_label_store ks :
  keeps the_label_id_store (train_index ks).
Proof. unfold train_index. keeps_tac. Qed.

Lemma add_keys_keeps_label_store ks :
  keeps the_label_id_store (add_keys ks).
Proof. unfold add_keys. keeps_tac. Qed.

Lemma self_to_label_store {A} (m : M A) :
  keeps the_self m -> keeps the_label_id_store m.
Proof.
  intros H w. specialize (H w). unfold the_label_id_store, the_self in *.
  now rewrite H.
Qed.

Lemma run_calls_keeps_label_store (cs : list call) :
  forallb sets_no_store cs = true ->
  forall w, label_id_store (self (run_calls cs w)) = label_id_store (self w).
Proof.
  induction cs as [|c cs IH]; intros Hcs w; simpl in *; [reflexivity|].
  apply andb_prop in Hcs as [Hc Hcs]. rewrite (IH Hcs).
  destruct c; simpl in Hc; try discriminate; simpl.
  - apply (train_index_keeps_label_store key_store w).
  - apply (add_keys_keeps_label_store keys_to_add w).
  - apply (self_to_label_store _ (save_keeps_self output_dir) w).
  - reflexivity.
Qed.

(** X7. An instance that was only ever trained and filled through
    [train_index] and [add_keys] has no label store, so no search on it
    returns scores, whatever vocabulary size is set: the stores come from
    [load] or [read_features_and_train] alone. *)
Theorem search_k_needs_load_or_build
        (dim : Z) (a : option Args) (fs : FS) (cs : list call)
        (query : list Vec) (k : Z) (T : R) :
  forallb sets_no_store cs = true ->
  is_ok (search_k (self (run_calls cs {| self := DataStore_init dim a;
                                         disk := fs |}))
                  query k T) = false.
Proof.
  intros Hcs.
  pose proof (run_calls_keeps_label_store cs Hcs
                {| self := DataStore_init dim a; disk := fs |}) as Hnone.
  simpl in Hnone. unfold search_k, search_k_body.
  destruct (negb (1 <=? vocab_size _)); [reflexivity|].
  destruct (index_search _ query k) as [[D I_]|e]; [|reflexivity].
  simpl. rewrite Hnone. reflexivity.
Qed.

(** What a save does when every step goes through. *)
Lemma save_run (dir : string) (w : World) (b : Blob) (labels inputs : list Z)
      (fs1 fs2 fs3 : FS) :
  serialize_index (index (self w)) = Ok b ->
  label_id_store (self w) = Some labels ->
  input_id_store (self w) = Some inputs ->
  fs_write (disk w) dir INDEX_FILE (FIndex b) = Ok fs1 ->
  fs_write fs1 dir TOKEN_ID_FILE (FIds labels) = Ok fs2 ->
  fs_write fs2 dir INPUT_ID_FILE (FIds inputs) = Ok fs3 ->
  save dir w = (Ok tt, {| self := self w; disk := fs3 |}).
Proof.
  intros Hb Hl Hi W1 W2 W3.
  unfold save, bind, try_except, get_self, lift, raise. simpl.
  rewrite faiss_write_index_run, Hb, W1. simpl. rewrite Hl. simpl.
  rewrite torch_save_run. simpl. rewrite W2. simpl. rewrite Hi. simpl.
  rewrite torch_save_run. simpl. rewrite W3. reflexivity.
Qed.

(** X8. Whatever goes wrong in a save, the caller sees an IOError, and the
    instance is as it was. *)
Theorem save_fails_only_with_IOError (dir : string) (w : World) (e : exn) :
  fst (save dir w) = Raise e ->
  e = IOError /\ self (snd (save dir w)) = self w.
Proof.
  intros H. split; [|apply (save_keeps_self dir w)].
  revert H.
  unfold save, bind, try_except, get_self, lift, raise. simpl.
  rewrite faiss_write_index_run.
  destruct (serialize_index (index (self w))) as [b|e0]; simpl;
    [|intros H; inversion H; reflexivity].
  destruct (fs_write (disk w) dir INDEX_FILE (FIndex b)) as [fs1|e0]; simpl;
    [|intros H; inversion H; reflexivity].
  destruct (label_id_store (self w)) as [labels|]; simpl;
    [|intros H; inversion H; reflexivity].
  rewrite torch_save_run. simpl.
  destruct (fs_write fs1 dir TOKEN_ID_FILE (FIds labels)) as [fs2|e0]; simpl;
    [|intros H; inversion H; reflexivity].
  destruct (input_id_store (self w)) as [inputs|]; simpl;
    [|intros H; inversion H; reflexivity].
  rewrite torch_save_run. simpl.
  destruct (fs_write fs2 dir INPUT_ID_FILE (FIds inputs)) as [fs3|e0]; simpl;
    intros H; inversion H; reflexivity.
Qed.

(** X9. A save is not all-or-nothing: on an instance without a label store
    it writes the index file and then raises, leaving that file behind. *)
Theorem save_without_stores_leaves_index_file
        (dir : string) (w : World) (b : Blob) (fs1 : FS) :
  serialize_index (index (self w)) = Ok b ->
  fs_write (disk w) dir INDEX_FILE (FIndex b) = Ok fs1 ->
  label_id_store (self w) = None ->
  save dir w = (Raise IOError, {| self := self w; disk := fs1 |}) /\
  fs_read fs1 dir INDEX_FILE = Ok (FIndex b).
Proof.
  intros Hb W1 Hl. split; [|eapply fs_read_write_same; eauto].
  unfold save, bind, try_except, get_self, lift, raise. simpl.
  rewrite faiss_write_index_run, Hb, W1. simpl. rewrite Hl. reflexivity.
Qed.

Lemma assoc_set_present {A} (k : string) (v : A) (l : list (string * A)) :
  assoc k l = Some v -> assoc_set k v l = l.
Proof.
  induction l as [|[k' v'] l IH]; simpl; [discriminate|].
  destruct (String.eqb_spec k k') as [->|Hne]; intros H.
  - inversion H; subst. reflexivity.
  - now rewrite IH.
Qed.

(** Writing a file over itself leaves the disk as it is. *)
Lemma fs_write_present (fs : FS) (dir name : string) (f : File) :
  fs_read fs dir name = Ok f -> fs_write fs dir name f = Ok fs.
Proof.
  unfold fs_read, fs_write.
  destruct (assoc dir fs) as [entries|] eqn:Hdir; [|discriminate].
  destruct (assoc name entries) as [f'|] eqn:Hname; [|discriminate].
  intros H. inversion H; subst.
  rewrite (assoc_set_present name f entries Hname).
  f_equal. apply assoc_set_present. exact Hdir.
Qed.

(** X10. Saving again right after a save that returned returns again and
    leaves the disk exactly as the first save left it. *)
Theorem save_twice_is_save_once (dir : string) (w w1 : World) :
  saved_names_distinct ->
  save dir w = (Ok tt, w1) ->
  save dir w1 = (Ok tt, w1).
Proof.
  intros Hnames Hsave.
  destruct (saved_files dir w w1 Hnames Hsave)
    as [b [labels [inputs [Hb [Hl [Hi [R1 [R2 R3]]]]]]]].
  destruct (save_returns dir w w1 Hsave) as [Hself _].
  rewrite (save_run dir w1 b labels inputs (disk w1) (disk w1) (disk w1));
    try (rewrite Hself; assumption);
    try (apply fs_write_present; assumption).
  destruct w1; reflexivity.
Qed.

Lemma faiss_read_index_run (dir name : string) (w : World) :
  faiss_read_index dir name w =
  (match fs_read (disk w) dir name with
   | Ok (FIndex b) => deserialize_index b
   | _ => Raise RuntimeError
   end, w).
Proof. reflexivity. Qed.

(** X11. A load is not all-or-nothing either: when the index file reads
    back but the label file cannot be read, the load raises after it has
    already replaced the index of the instance; the stores, the vocabulary
    size and the disk are as before. *)
Theorem load_without_label_file_replaces_index
        (dir : string) (w : World) (b : Blob) (ix : Index) (e : exn) :
  fs_read (disk w) dir INDEX_FILE = Ok (FIndex b) ->
  deserialize_index b = Ok ix ->
  fs_read (disk w) dir TOKEN_ID_FILE = Raise e ->
  load dir w = (Raise e, {| self := with_index (self w) ix; disk := disk w |}).
Proof.
  intros Hix Hde Hl.
  unfold load, bind, modify_self, lift.
  rewrite faiss_read_index_run, Hix, Hde. simpl.
  rewrite Hl. reflexivity.
Qed.

(** X12. A load whose index file is missing, is no index file or does not
    deserialize raises and changes nothing. *)
Theorem load_without_index_changes_nothing
        (dir : string) (w : World) :
  (forall b ix, fs_read (disk w) dir INDEX_FILE = Ok (FIndex b) ->
                deserialize_index b <> Ok ix) ->
  exists e, load dir w = (Raise e, w).
Proof.
  intros Hno.
  unfold load, bind. rewrite faiss_read_index_run.
  destruct (fs_read (disk w) dir INDEX_FILE) as [f|e] eqn:Hr; simpl.
  - destruct f; simpl; try (eexists; reflexivity).
    destruct (deserialize_index b) as [ix|e] eqn:Hde.
    + exfalso. eapply Hno; eauto.
    + eexists; reflexivity.
  - eexists; reflexivity.
Qed.

End PersistenceExtras.

(** ** More on the build *)

Section BuildExtras.

Context {F : Faiss} {P : Projection F} {C : Constants} {N : Float64}.

(** One loop iteration on a shard that is on disk. *)
Lemma read_shard_loaded (fd name : string) (w : World)
      (ks : list Vec) (ls ins : list Z) (shard : list Vec * list Z * list Z) :
  shard_loaded (disk w) fd name shard ->
  read_shard fd name (ks, ls, ins) w =
  (Ok (ks ++ fst (fst shard), ls ++ snd (fst shard), ins ++ snd shard), w).
Proof.
  intros [fid [Hfid [Hk [Hv Ht]]]].
  unfold read_shard, bind, try_except, lift, raise, ret.
  rewrite Hfid. rewrite !torch_load_run. simpl.
  rewrite Hk, Hv, Ht. reflexivity.
Qed.

(** One loop iteration that returns has found the shard on disk. *)
Lemma read_shard_returns (fd name : string) (w w' : World)
      (ks : list Vec) (ls ins : list Z) acc' :
  read_shard fd name (ks, ls, ins) w = (Ok acc', w') ->
  exists shard,
    shard_loaded (disk w) fd name shard /\
    acc' = (ks ++ fst (fst shard), ls ++ snd (fst shard), ins ++ snd shard).
Proof.
  unfold read_shard, shard_loaded, bind, try_except, lift, raise, ret.
  destruct (Py.split_head name RAW_FEATURE_VALUE_SUFFIX) as [fid|e] eqn:Hfid;
    [|discriminate].
  rewrite !torch_load_run. simpl.
  destruct (fs_read (disk w) fd (fid ++ RAW_FEATURE_KEY_SUFFIX)) as [fk|e] eqn:Hk;
    simpl; [|discriminate].
  destruct (fs_read (disk w) fd (fid ++ RAW_FEATURE_VALUE_SUFFIX)) as [fv|e] eqn:Hv;
    simpl; [|discriminate].
  destruct (fs_read (disk w) fd (fid ++ RAW_FEATURE_TOKEN_SUFFIX)) as [ft|e] eqn:Ht;
    simpl; [|discriminate].
  destruct fk as [ks0| | | |]; simpl; try discriminate.
  destruct fv as [|ids| | |]; simpl; try discriminate.
  destruct ft as [|ids0| | |]; simpl; try discriminate.
  intros H. inversion H; subst.
  exists (ks0, ids, ids0). split; [|reflexivity].
  exists fid. simpl. repeat split; try reflexivity; assumption.
Qed.

(** One loop iteration on a shard with a missing file raises an IOError. *)
Lemma read_shard_incomplete (fd name : string) (w : World) acc :
  shard_incomplete (disk w) fd name ->
  read_shard fd name acc w = (Raise IOError, w).
Proof.
  intros [fid [Hfid Hmiss]]. destruct acc as [[ks ls] ins].
  unfold read_shard, bind, try_except, lift, raise, ret.
  rewrite Hfid. rewrite !torch_load_run. simpl.
  destruct (fs_read (disk w) fd (fid ++ RAW_FEATURE_KEY_SUFFIX)) as [fk|e];
    simpl; [|reflexivity].
  destruct (fs_read (disk w) fd (fid ++ RAW_FEATURE_VALUE_SUFFIX)) as [fv|e];
    simpl; [|reflexivity].
  destruct (fs_read (disk w) fd (fid ++ RAW_FEATURE_TOKEN_SUFFIX)) as [ft|e];
    simpl; [|reflexivity].
  simpl in Hmiss. discriminate.
Qed.

(** The loop appends the shards of its files, in the order of the files. *)
Lemma read_shards_returns (fd : string) (names : list string) :
  forall (w w' : World) (ks : list Vec) (ls ins : list Z) acc',
    read_shards fd names (ks, ls, ins) w = (Ok acc', w') ->
    exists shards,
      Forall2 (shard_loaded (disk w) fd) names shards /\
      acc' = (ks ++ concat (map (fun sh => fst (fst sh)) shards),
              ls ++ concat (map (fun sh => snd (fst sh)) shards),
              ins ++ concat (map snd shards)).
Proof.
  induction names as [|name names IH]; intros w w' ks ls ins acc' H.
  - simpl in H. inversion H; subst. exists []. split; [constructor|].
    simpl. now rewrite !app_nil_r.
  - rewrite read_shards_cons in H.
    pose proof (read_shard_reads_only fd name (ks, ls, ins) w) as Hw.
    destruct (read_shard fd name (ks, ls, ins) w) as [[acc1|e] w1] eqn:Hs;
      [|discriminate].
    simpl in Hw. subst w1.
    destruct (read_shard_returns _ _ _ _ _ _ _ _ Hs) as [sh [Hsh ->]].
    destruct (IH _ _ _ _ _ _ H) as [shards [Hall ->]].
    exists (sh :: shards). split; [constructor; assumption|].
    simpl. now rewrite !app_assoc.
Qed.

(** The loop goes through a prefix of shards that are on disk. *)
Lemma read_shards_loaded_prefix (fd : string) (w : World)
      (pre : list string) (shards : list (list Vec * list Z * list Z)) :
  Forall2 (shard_loaded (disk w) fd) pre shards ->
  forall rest ks ls ins,
    read_shards fd (pre ++ rest) (ks, ls, ins) w =
    read_shards fd rest
                (ks ++ concat (map (fun sh => fst (fst sh)) shards),
                 ls ++ concat (map (fun sh => snd (fst sh)) shards),
                 ins ++ concat (map snd shards)) w.
Proof.
  induction 1 as [|name sh pre shards Hsh _ IH]; intros rest ks ls ins.
  - simpl. now rewrite !app_nil_r.
  - simpl app. rewrite read_shards_cons, (read_shard_loaded _ _ _ _ _ _ _ Hsh).
    rewrite IH. simpl. now rewrite !app_assoc.
Qed.

Lemma read_feature_files_run (fd : string) (p : Z) (w : World)
      (names : list string) :
  fs_listdir (disk w) fd = Ok names ->
  read_feature_files fd p w =
  match read_shards fd (selected_value_files names p) ([], [], []) w with
  | (Ok (key_store, label_id_store, input_id_store), w') =>
      match np_stack_keys key_store with
      | Ok key_store =>
          match np_stack_ids label_id_store with
          | Ok label_id_store =>
              match np_stack_ids input_id_store with
              | Ok input_id_store =>
                  (Ok (key_store, label_id_store, input_id_store), w')
              | Raise e => (Raise e, w')
              end
          | Raise e => (Raise e, w')
          end
      | Raise e => (Raise e, w')
      end
  | (Raise e, w') => (Raise e, w')
  end.
Proof.
  intros Hls. unfold read_feature_files, bind, get_disk, lift, ret. simpl.
  rewrite Hls. unfold selected_value_files.
  destruct (read_shards fd _ ([], [], []) w) as [[[[ks ls] ins]|e] w1];
    [|reflexivity].
  destruct (np_stack_keys ks); simpl; [|reflexivity].
  destruct (np_stack_ids ls); simpl; [|reflexivity].
  destruct (np_stack_ids ins); reflexivity.
Qed.

(** X13. When no value file is selected (an empty feature directory, no
    file with the value suffix, or a percentage that selects none), reading
    the features raises the ValueError of stacking an empty list. *)
Theorem read_feature_files_without_value_files_raises
        (fd : string) (p : Z) (w : World) (names : list string) :
  fs_listdir (disk w) fd = Ok names ->
  selected_value_files names p = [] ->
  read_feature_files fd p w = (Raise ValueError, w).
Proof.
  intros Hls Hnone. rewrite (read_feature_files_run fd p w names Hls), Hnone.
  reflexivity.
Qed.

(** X14. The stores returned by a read are the shards of the selected value
    files, concatenated in the order of the directory listing; the three
    stores are cut from the same shards, and neither the instance nor the
    disk is touched. *)
Theorem read_feature_files_concatenates_shards
        (fd : string) (p : Z) (w w' : World)
        (ks : list Vec) (ls ins : list Z) :
  read_feature_files fd p w = (Ok (ks, ls, ins), w') ->
  exists names shards,
    fs_listdir (disk w) fd = Ok names /\
    Forall2 (shard_loaded (disk w) fd) (selected_value_files names p) shards /\
    ks = concat (map (fun sh => fst (fst sh)) shards) /\
    ls = concat (map (fun sh => snd (fst sh)) shards) /\
    ins = concat (map snd shards) /\
    w' = w.
Proof.
  intros H.
  pose proof (read_feature_files_reads_only fd p w) as Hw.
  rewrite H in Hw. simpl in Hw. subst w'.
  destruct (fs_listdir (disk w) fd) as [names|e] eqn:Hls.
  - rewrite (read_feature_files_run fd p w names Hls) in H.
    destruct (read_shards fd _ ([], [], []) w) as [[[[ks1 ls1] ins1]|e] w1] eqn:Hs;
      [|discriminate].
    destruct (read_shards_returns _ _ _ _ _ _ _ _ Hs) as [shards [Hall Hacc]].
    simpl in Hacc. inversion Hacc; subst. clear Hacc.
    destruct (np_stack_keys _) as [ks2|e] eqn:Hk; [|discriminate].
    destruct (np_stack_ids (concat (map (fun sh => snd (fst sh)) shards)))
      as [ls2|e] eqn:Hl; [|discriminate].
    destruct (np_stack_ids (concat (map snd shards))) as [ins2|e] eqn:Hi;
      [|discriminate].
    inversion H; subst.
    apply np_stack_keys_ok in Hk. apply np_stack_ids_ok in Hl.
    apply np_stack_ids_ok in Hi. subst.
    exists names, shards. repeat split; auto.
  - unfold read_feature_files, bind, get_disk, lift in H. simpl in H.
    rewrite Hls in H. discriminate.
Qed.

(** X15. When the shards before it are on disk and a selected value file
    lacks one of its three files, reading the features raises an IOError. *)
Theorem read_feature_files_incomplete_shard_raises
        (fd : string) (p : Z) (w : World) (names pre post : list string)
        (name : string) (shards : list (list Vec * list Z * list Z)) :
  fs_listdir (disk w) fd = Ok names ->
  selected_value_files names p = pre ++ name :: post ->
  Forall2 (shard_loaded (disk w) fd) pre shards ->
  shard_incomplete (disk w) fd name ->
  read_feature_files fd p w = (Raise IOError, w).
Proof.
  intros Hls Hsel Hpre Hbad.
  rewrite (read_feature_files_run fd p w names Hls), Hsel.
  rewrite (read_shards_loaded_prefix fd w pre shards Hpre).
  rewrite read_shards_cons, read_shard_incomplete by exact Hbad.
  reflexivity.
Qed.

(** X16. [add_keys] extends the index and nothing else: on an instance whose
    stores and index agree in size, adding at least one key leaves the
    stores behind the index. *)
Theorem add_keys_leaves_stores_behind
        (ks : list Vec) (w w' : World) :
  IndexCounts ->
  counts_agree (self w) ->
  ks <> [] ->
  add_keys ks w = (Ok tt, w') ->
  label_id_store (self w') = label_id_store (self w) /\
  input_id_store (self w') = input_id_store (self w) /\
  index_ntotal (index (self w')) = (index_ntotal (index (self w)) + length ks)%nat /\
  ~ counts_agree (self w').
Proof.
  intros [_ Cadd _] [labels [inputs [Hl [Hi [Hn _]]]]] Hne H.
  rewrite add_keys_run in H.
  destruct (index_add (index (self w)) ks) as [ix|e] eqn:Hadd; [|discriminate].
  inversion H; subst w'. simpl.
  pose proof (Cadd _ _ _ Hadd) as Hcount.
  repeat split; auto.
  intros [labels' [inputs' [Hl' [_ [Hn' _]]]]]. simpl in Hl', Hn'.
  rewrite Hl in Hl'. inversion Hl'; subst labels'.
  destruct ks; [congruence|]. simpl in Hcount. lia.
Qed.

(** X17. On an instance constructed without arguments the build reads the
    features and sets both stores, then raises an AttributeError before it
    trains anything: the index is as it was and nothing is written. *)
Theorem read_features_and_train_without_args
        (fd od : string) (p : Z) (w : World)
        (ks : list Vec) (ls ins : list Z) :
  args (self w) = None ->
  read_feature_files fd p w = (Ok (ks, ls, ins), w) ->
  read_features_and_train fd od p w =
  (Raise AttributeError,
   {| self := with_input_id_store (with_label_id_store (self w) ls) ins;
      disk := disk w |}).
Proof.
  intros Ha Hread.
  unfold read_features_and_train. unfold bind at 1.
  unfold read_and_set_stores, bind at 1. rewrite Hread.
  unfold modify_self, bind, ret. simpl.
  unfold whiten_keys, bind, get_self, lift. simpl. rewrite Ha. reflexivity.
Qed.

End BuildExtras.

(** ** What a build writes, and the entry point *)

Section DiskFrames.

Context {F : Faiss} {P : Projection F} {C : Constants} {N : Float64}.
Context {X : Type} (obs : FS -> X) (od : string) (written : string -> Prop).

(** The observation of the disk survives every write of a [written] file in
    the output directory. *)
Hypothesis obs_write :
  forall fs name f fs',
    written name -> fs_write fs od name f = Ok fs' -> obs fs' = obs fs.

Lemma torch_save_keeps_disk name f :
  written name -> keeps (fun w => obs (disk w)) (torch_save od name f).
Proof.
  intros Hname w. rewrite torch_save_run.
  destruct (fs_write (disk w) od name f) as [fs'|e] eqn:Hw; simpl;
    [|reflexivity].
  eapply obs_write; eauto.
Qed.

Lemma faiss_write_index_keeps_disk ix name :
  written name -> keeps (fun w => obs (disk w)) (faiss_write_index ix od name).
Proof.
  intros Hname w. rewrite faiss_write_index_run.
  destruct (serialize_index ix) as [b|e]; [|reflexivity].
  destruct (fs_write (disk w) od name (FIndex b)) as [fs'|e] eqn:Hw; simpl;
    [|reflexivity].
  eapply obs_write; eauto.
Qed.

Hypothesis written_kernel : written "kernel.pt".
Hypothesis written_bias : written "bias.pt".
Hypothesis written_index : written INDEX_FILE.
Hypothesis written_labels : written TOKEN_ID_FILE.
Hypothesis written_inputs : written INPUT_ID_FILE.

Lemma save_keeps_disk : keeps (fun w => obs (disk w)) (save od).
Proof.
  unfold save. keeps_tac;
    try (apply faiss_write_index_keeps_disk; assumption);
    apply torch_save_keeps_disk; assumption.
Qed.

Lemma whiten_keys_keeps_disk ks :
  keeps (fun w => obs (disk w)) (whiten_keys od ks).
Proof.
  unfold whiten_keys. keeps_tac; apply torch_save_keeps_disk; assumption.
Qed.

Lemma read_features_and_train_keeps_disk fd p :
  keeps (fun w => obs (disk w)) (read_features_and_train fd od p).
Proof.
  unfold read_features_and_train. keeps_tac.
  - unfold read_and_set_stores. keeps_tac. apply read_feature_files_keeps.
  - apply whiten_keys_keeps_disk.
  - unfold train_index. keeps_tac.
  - unfold add_keys. keeps_tac.
  - apply save_keeps_disk.
Qed.

End DiskFrames.

Section EntryExtras.

Context {F : Faiss} {P : Projection F} {C : Constants} {N : Float64}.

Lemma fs_write_other_dir (fs fs' : FS) (od dir name : string) (f : File) :
  dir <> od -> fs_write fs od name f = Ok fs' -> assoc dir fs' = assoc dir fs.
Proof.
  intros Hne. unfold fs_write.
  destruct (assoc od fs) as [entries|]; [|discriminate].
  intros H. inversion H; subst. now apply assoc_set_other.
Qed.


(** X18. A build writes into its output directory only, and there only the
    two projection files and the three files of [save]: every other
    directory and every other file of the output directory is, whether the
    build returns or raises, as it was. *)
Theorem build_writes_only_its_five_files
        (fd od : string) (p : Z) (w : World) (dir name : string) :
  dir <> od ->
  ~ In name ["kernel.pt"%string; "bias.pt"%string;
             INDEX_FILE; TOKEN_ID_FILE; INPUT_ID_FILE] ->
  assoc dir (disk (snd (read_features_and_train fd od p w))) = assoc dir (disk w) /\
  fs_read (disk (snd (read_features_and_train fd od p w))) od name
  = fs_read (disk w) od name.
Proof.
  intros Hdir Hname. split.
  - apply (read_features_and_train_keeps_disk
             (fun fs => assoc dir fs) od (fun _ => True)); auto.
    intros fs n f fs' _ Hw. eapply fs_write_other_dir; eauto.
  - apply (read_features_and_train_keeps_disk
             (fun fs => fs_read fs od name) od
             (fun n => In n ["kernel.pt"%string; "bias.pt"%string;
                             INDEX_FILE; TOKEN_ID_FILE; INPUT_ID_FILE]));
      simpl; auto 6.
    intros fs n f fs' Hn Hw.
    apply (fs_read_write_other _ _ _ _ _ _ Hw).
    intros E. subst. contradiction.
Qed.

(** X19. What a build leaves in its output directory is a datastore: a load
    of that directory into a fresh instance returns, and with the same
    vocabulary size set every search answers as on the instance that was
    built. *)
Theorem build_then_load_preserves_search
        (fd od : string) (p : Z) (w w' : World) (dim : Z) (a : option Args) :
  serialization_faithful ->
  saved_names_distinct ->
  read_features_and_train fd od p w = (Ok tt, w') ->
  exists w2,
    load od {| self := DataStore_init dim a; disk := disk w' |} = (Ok tt, w2) /\
    forall (v : Z) (query : list Vec) (k : Z) (T : R),
      search_k (self (snd (set_vocab_size v w2))) query k T
      = search_k (self (snd (set_vocab_size v w'))) query k T.
Proof.
  intros Hser Hnames Hrun.
  destruct (read_features_and_train_returns fd od p w w' Hrun)
    as [ks [ks' [w1 [w2 [w3 [w4 [_ [_ [_ [_ Hsave]]]]]]]]]].
  destruct (saved_files od w4 w' Hnames Hsave)
    as [b [labels [inputs [Hb [Hl [Hi [R1 [R2 R3]]]]]]]].
  destruct (save_returns od w4 w' Hsave) as [Hself _].
  destruct (Hser _ _ Hb) as [ix' [Hde Hsame]].
  eexists. split.
  - apply (load_run od _ b ix' labels inputs); simpl; assumption.
  - intros v query k T. unfold search_k, search_k_body. simpl.
    rewrite Hself, Hsame, Hl, Hi. reflexivity.
Qed.




End EntryExtras.

(** * The properties on the concrete instantiation *)

#[local] Existing Instances Toy.faiss Toy.projection Toy.constants Toy.float64.

Local Open Scope string_scope.

(** The query [[0; 0]] with [k = 3] retrieves the ids 0, 1, 2 at squared
    distances 0, 1, 1; their labels are 0, 1, 0. *)
Lemma toy_retrieval :
  Retrieval Toy.populated [[0; 0]] 3
            [[0; 1; 1]]%R [[0; 1; 2]] [[0; 1; 0]] [[10; 11; 12]].
Proof.
  constructor.
  - simpl. lia.
  - reflexivity.
  - reflexivity.
  - reflexivity.
  - repeat constructor.
  - repeat constructor.
  - exists Toy.labels. split; reflexivity.
  - exists Toy.tokens. split; reflexivity.
Qed.

Lemma toy_labels_in_range : labels_in_range Toy.populated [[0; 1; 0]].
Proof. repeat constructor; simpl; lia. Qed.

Lemma toy_serialization_faithful : serialization_faithful.
Proof.
  intros ix b H. exists ix. simpl in *.
  unfold Toy.serialize in H. destruct (Toy.on_gpu ix); [discriminate|].
  inversion H; subst. split; reflexivity.
Qed.

Lemma toy_saved_names_distinct : saved_names_distinct.
Proof.
  unfold saved_names_distinct. simpl.
  repeat constructor; simpl; intuition discriminate.
Qed.

Lemma toy_projection_names_free : projection_names_free.
Proof. unfold projection_names_free. simpl. intuition discriminate. Qed.

Lemma toy_index_counts : IndexCounts.
Proof.
  constructor; simpl.
  - intros ix ks ix' H. inversion H; reflexivity.
  - intros ix ks ix' H. unfold Toy.add in H.
    destruct (Toy.is_trained ix); [|discriminate].
    inversion H; subst. simpl. apply length_app.
  - reflexivity.
Qed.

Lemma toy_transform_keeps_rows : transform_keeps_rows.
Proof.
  intros ks kernel bias ks' H. simpl in H. inversion H; subst.
  apply length_map.
Qed.

Lemma toy_shards_aligned : shards_aligned Toy.disk0 "feats".
Proof.
  intros names H. vm_compute in H. inversion H; subst. reflexivity.
Qed.

Lemma search_k_rows_sum_to_one_witness :
  exists scores,
    search_k Toy.populated [[0; 0]] 3 1%R
    = Ok (scores, [[10; 11; 12]], [[0; 1; 2]]) /\
    length scores = 1%nat /\
    Forall (fun row => Torch.sum row = 1%R) scores.
Proof.
  apply (search_k_rows_sum_to_one Toy.populated [[0; 0]] 3 1%R
           [[0; 1; 1]]%R [[0; 1; 2]] [[0; 1; 0]] [[10; 11; 12]]).
  - exact toy_retrieval.
  - exact toy_labels_in_range.
  - lia.
  - lra.
Defined.

Lemma search_k_duplicate_labels_accumulate_witness :
  exists scores,
    search_k Toy.populated [[0; 0]] 3 1%R
    = Ok (scores, [[10; 11; 12]], [[0; 1; 2]]) /\
    nth 0 (nth 0 scores []) 0%R
    = Torch.mass_at 0 [0; 1; 0] (weights [[0; 1; 1]]%R 1 0) /\
    (nth 0 (weights [[0; 1; 1]]%R 1 0) 0 < nth 0 (nth 0 scores []) 0)%R /\
    (nth 2 (weights [[0; 1; 1]]%R 1 0) 0 < nth 0 (nth 0 scores []) 0)%R.
Proof.
  apply (search_k_duplicate_labels_accumulate Toy.populated [[0; 0]] 3 1%R
           [[0; 1; 1]]%R [[0; 1; 2]] [[0; 1; 0]] [[10; 11; 12]]
           0%nat 0%nat 2%nat 0).
  - exact toy_retrieval.
  - exact toy_labels_in_range.
  - lra.
  - lia.
  - reflexivity.
  - reflexivity.
Defined.

Lemma search_k_result_shape_witness :
  exists scores label_store input_store,
    search_k Toy.populated [[0; 0]] 3 1%R
    = Ok (scores, [[10; 11; 12]], [[0; 1; 2]]) /\
    length scores = 1%nat /\
    Forall (fun row => length row = 3%nat) scores /\
    label_id_store Toy.populated = Some label_store /\
    input_id_store Toy.populated = Some input_store /\
    Forall2 (Forall2 (fun id v => Torch.getitem label_store id = Ok v))
            [[0; 1; 2]] [[0; 1; 0]] /\
    Forall2 (Forall2 (fun id v => Torch.getitem input_store id = Ok v))
            [[0; 1; 2]] [[10; 11; 12]].
Proof.
  apply (search_k_result_shape Toy.populated [[0; 0]] 3 1%R
           [[0; 1; 1]]%R [[0; 1; 2]] [[0; 1; 0]] [[10; 11; 12]]).
  - exact toy_retrieval.
  - exact toy_labels_in_range.
Defined.

(** C5, the claim as stated: with temperature -1 the search returns a score
    matrix instead of raising. *)
Lemma search_k_accepts_negative_temperature :
  (-1 <= 0)%R /\
  exists scores,
    search_k Toy.populated [[0; 0]] 3 (-1)%R
    = Ok (scores, [[10; 11; 12]], [[0; 1; 2]]).
Proof.
  split; [lra|].
  apply (search_k_returns Toy.populated [[0; 0]] 3
           [[0; 1; 1]]%R [[0; 1; 2]] [[0; 1; 0]] [[10; 11; 12]]
           toy_retrieval (-1)%R toy_labels_in_range).
Qed.

Lemma search_k_fails_only_on_label_out_of_range_witness :
  (labels_in_range Toy.populated [[0; 1; 0]] ->
   exists scores,
     search_k Toy.populated [[0; 0]] 3 (-1)%R
     = Ok (scores, [[10; 11; 12]], [[0; 1; 2]])) /\
  (~ labels_in_range Toy.populated [[0; 1; 0]] ->
   search_k Toy.populated [[0; 0]] 3 (-1)%R = Raise RuntimeError).
Proof.
  apply (search_k_fails_only_on_label_out_of_range Toy.populated [[0; 0]] 3
           (-1)%R [[0; 1; 1]]%R [[0; 1; 2]] [[0; 1; 0]] [[10; 11; 12]]).
  exact toy_retrieval.
Defined.

(** With a vocabulary of two positions the label 2 of the fourth key is out
    of range, and the search raises the error of the scatter. *)
Example search_k_label_out_of_range :
  search_k (with_vocab_size Toy.populated 2) [[5; 5]] 1 1%R = Raise RuntimeError.
Proof. reflexivity. Qed.

(** C6, the claim as stated: on the populated instance left by a build,
    training again returns instead of being rejected. *)
Lemma train_index_accepts_trained_store :
  fst (read_features_and_train "feats" "out" 100 (Toy.fresh false)) = Ok tt /\
  fst (train_index Toy.keys
         (snd (read_features_and_train "feats" "out" 100 (Toy.fresh false))))
  = Ok tt.
Proof. split; vm_compute; reflexivity. Qed.

Lemma train_index_has_no_lifecycle_guard_witness :
  exists ix1,
    index_train (index (self (Toy.fresh false))) Toy.keys = Ok ix1 /\
    index (self (snd (train_index Toy.keys (Toy.fresh false))))
    = index_gpu_to_cpu ix1 /\
    train_index Toy.keys (snd (train_index Toy.keys (Toy.fresh false))) =
    match index_train (index_gpu_to_cpu ix1) Toy.keys with
    | Ok ix =>
        (Ok tt,
         {| self := with_index (self (snd (train_index Toy.keys (Toy.fresh false))))
                               (index_gpu_to_cpu ix);
            disk := disk (snd (train_index Toy.keys (Toy.fresh false))) |})
    | Raise e => (Raise e, snd (train_index Toy.keys (Toy.fresh false)))
    end.
Proof.
  apply (train_index_has_no_lifecycle_guard
           (Toy.fresh false) (snd (train_index Toy.keys (Toy.fresh false)))
           Toy.keys Toy.keys).
  reflexivity.
Defined.

Lemma search_requires_vocab_size_witness :
  search_k (self (run_calls [CallReadFeaturesAndTrain "feats" "out" 100;
                             CallLoad "out"]
                            {| self := DataStore_init 2 (Some {| args_whitening := false;
                                                                 args_dim_reduction := 2 |});
                               disk := Toy.disk0 |}))
           [[0; 0]] 3 1%R
  = Raise (AssertionError vocab_assert_msg) /\
  fst (set_vocab_size 3 {| self := Toy.populated; disk := Toy.disk0 |}) = Ok tt /\
  search_k (self (snd (set_vocab_size 3 {| self := Toy.populated; disk := Toy.disk0 |})))
           [[0; 0]] 3 1%R
  = search_k_body
      (self (snd (set_vocab_size 3 {| self := Toy.populated; disk := Toy.disk0 |})))
      [[0; 0]] 3 1%R.
Proof.
  apply (search_requires_vocab_size
           2 (Some {| args_whitening := false; args_dim_reduction := 2 |})
           Toy.disk0
           [CallReadFeaturesAndTrain "feats" "out" 100; CallLoad "out"]
           {| self := Toy.populated; disk := Toy.disk0 |} 3 [[0; 0]] 3 1%R).
  - reflexivity.
  - lia.
Defined.

Lemma vocab_guard_is_positivity_check_witness :
  vocab_size (DataStore_init 2 None) = -1 /\
  search_k (DataStore_init 2 None) [[0; 0]] 3 1%R
  = Raise (AssertionError vocab_assert_msg) /\
  search_k (self (run_calls [CallSave "out"]
                            (snd (set_vocab_size 0 {| self := Toy.populated;
                                                      disk := Toy.disk0 |}))))
           [[0; 0]] 3 1%R
  = Raise (AssertionError vocab_assert_msg) /\
  search_k (self (run_calls [CallSave "out"]
                            (snd (set_vocab_size 0 {| self := Toy.populated;
                                                      disk := Toy.disk0 |}))))
           [[0; 0]] 3 1%R
  = search_k (DataStore_init 2 None) [[0; 0]] 3 1%R.
Proof.
  apply (vocab_guard_is_positivity_check
           (DataStore_init 2 None) 2 None
           {| self := Toy.populated; disk := Toy.disk0 |} 0 [CallSave "out"]
           [[0; 0]] 3 1%R).
  - simpl. lia.
  - lia.
  - reflexivity.
Defined.

Lemma save_then_load_preserves_search_witness :
  exists w2,
    load "out" {| self := DataStore_init 2 None;
                  disk := disk (snd (save "out" {| self := Toy.populated;
                                                   disk := Toy.disk0 |})) |}
    = (Ok tt, w2) /\
    forall (v : Z) (query : list Vec) (k : Z) (T : R),
      search_k (self (snd (set_vocab_size v w2))) query k T
      = search_k (self (snd (set_vocab_size v {| self := Toy.populated;
                                                 disk := Toy.disk0 |})))
                 query k T.
Proof.
  apply (save_then_load_preserves_search
           {| self := Toy.populated; disk := Toy.disk0 |}
           (snd (save "out" {| self := Toy.populated; disk := Toy.disk0 |}))
           "out" 2 None).
  - exact toy_serialization_faithful.
  - exact toy_saved_names_distinct.
  - reflexivity.
Defined.

Lemma whitening_applied_before_train_and_add_witness :
  exists ks ls ins kernel0 bias ks' ix1 ix2,
    read_feature_files "feats" 100 (Toy.fresh true)
    = (Ok (ks, ls, ins), Toy.fresh true) /\
    whitening ks = Ok (kernel0, bias) /\
    let kernel := if (2 =? 0)%Z then kernel0
                  else kernel_columns kernel0 (d (self (Toy.fresh true))) in
    transform_and_normalize ks kernel bias = Ok ks' /\
    index_train (index (self (Toy.fresh true))) ks' = Ok ix1 /\
    index_add (index_gpu_to_cpu ix1) ks' = Ok ix2 /\
    index (self (snd (read_features_and_train "feats" "out" 100 (Toy.fresh true))))
    = ix2 /\
    fs_read (disk (snd (read_features_and_train "feats" "out" 100 (Toy.fresh true))))
            "out" "kernel.pt" = Ok (FKernel kernel) /\
    fs_read (disk (snd (read_features_and_train "feats" "out" 100 (Toy.fresh true))))
            "out" "bias.pt" = Ok (FBias bias).
Proof.
  apply (whitening_applied_before_train_and_add
           "feats" "out" 100 (Toy.fresh true)
           (snd (read_features_and_train "feats" "out" 100 (Toy.fresh true)))
           {| args_whitening := true; args_dim_reduction := 2 |}).
  - reflexivity.
  - reflexivity.
  - exact toy_projection_names_free.
  - vm_compute. reflexivity.
Defined.

(** C9, the claim as stated: in a build over aligned shards, the world right
    after the stores are set has four labels and an empty index. *)
Lemma build_sets_stores_before_adding :
  shards_aligned (disk (Toy.fresh false)) "feats" /\
  ~ Forall (fun w => counts_agree (self w))
           (build_points "feats" "out" 100 (Toy.fresh false)).
Proof.
  split; [exact toy_shards_aligned|].
  intros Hall.
  destruct (build_points_head "feats" "out" 100 (Toy.fresh false)) as [rest E].
  rewrite E in Hall. apply Forall_inv in Hall.
  destruct Hall as [labels [inputs [Hl [_ [Hn _]]]]].
  vm_compute in Hl. inversion Hl; subst labels.
  vm_compute in Hn. discriminate.
Qed.

Lemma build_ends_with_matching_counts_witness :
  counts_agree
    (self (snd (read_features_and_train "feats" "out" 100 (Toy.fresh true)))).
Proof.
  apply (build_ends_with_matching_counts
           "feats" "out" 100 (Toy.fresh true)
           (snd (read_features_and_train "feats" "out" 100 (Toy.fresh true)))).
  - exact toy_index_counts.
  - exact toy_transform_keeps_rows.
  - exact toy_shards_aligned.
  - reflexivity.
  - vm_compute. reflexivity.
Defined.

(** ** The further properties on the concrete instantiation *)


Lemma search_k_score_zero_off_labels_witness :
  exists scores,
    search_k Toy.populated [[0; 0]] 3 1%R
    = Ok (scores, [[10; 11; 12]], [[0; 1; 2]]) /\
    nth 2 (nth 0 scores []) 0%R = 0%R.
Proof.
  destruct (search_k_returns Toy.populated [[0; 0]] 3
              [[0; 1; 1]]%R [[0; 1; 2]] [[0; 1; 0]] [[10; 11; 12]]
              toy_retrieval 1%R toy_labels_in_range) as [scores Hsearch].
  exists scores. split; [exact Hsearch|].
  apply (search_k_score_zero_off_labels Toy.populated [[0; 0]] 3 1%R
           [[0; 1; 1]]%R [[0; 1; 2]] [[0; 1; 0]] [[10; 11; 12]] scores
           0%nat [0; 1; 0] 2 toy_retrieval Hsearch).
  - reflexivity.
  - lia.
  - simpl. intuition discriminate.
Defined.

Lemma softmax_weight_falls_with_distance_witness :
  (nth 1 (nth 0 (Torch.softmax (Torch.neg_div [[0; 1; 1]]%R 1)) []) 0
   <= nth 0 (nth 0 (Torch.softmax (Torch.neg_div [[0; 1; 1]]%R 1)) []) 0)%R.
Proof.
  apply (softmax_weight_falls_with_distance [[0; 1; 1]]%R 1%R 0%nat 0%nat 1%nat).
  - lra.
  - simpl. lia.
  - simpl. lia.
  - simpl. lra.
Defined.

Lemma softmax_weight_rises_with_distance_below_zero_witness :
  (nth 0 (nth 0 (Torch.softmax (Torch.neg_div [[0; 1; 1]]%R (-1))) []) 0
   <= nth 1 (nth 0 (Torch.softmax (Torch.neg_div [[0; 1; 1]]%R (-1))) []) 0)%R.
Proof.
  apply (softmax_weight_rises_with_distance_below_zero
           [[0; 1; 1]]%R (-1)%R 0%nat 0%nat 1%nat).
  - lra.
  - simpl. lia.
  - simpl. lia.
  - simpl. lra.
Defined.




Lemma search_k_id_outside_store_raises_witness :
  search_k Toy.short_store [[0; 0]] 3 1%R = Raise IndexError.
Proof.
  apply (search_k_id_outside_store_raises
           Toy.short_store [[0; 0]] 3 1%R [[0; 1; 1]]%R [[0; 1; 2]] [0; 1]).
  - simpl. lia.
  - reflexivity.
  - reflexivity.
  - apply Exists_cons_hd.
    apply Exists_cons_tl, Exists_cons_tl, Exists_cons_hd. simpl. lia.
Defined.

Lemma search_k_needs_load_or_build_witness :
  is_ok (search_k (self (run_calls [CallTrainIndex Toy.keys;
                                    CallAddKeys Toy.keys;
                                    CallSetVocabSize 3]
                                   {| self := DataStore_init 2 None;
                                      disk := Toy.disk0 |}))
                  [[0; 0]] 3 1%R) = false.
Proof.
  apply (search_k_needs_load_or_build 2 None Toy.disk0
           [CallTrainIndex Toy.keys; CallAddKeys Toy.keys; CallSetVocabSize 3]
           [[0; 0]] 3 1%R).
  reflexivity.
Defined.

(** The index of a fresh instance is on the GPU and does not serialize. *)
Lemma save_fails_only_with_IOError_witness :
  IOError = IOError /\
  self (snd (save "out" (Toy.fresh false))) = self (Toy.fresh false).
Proof.
  apply (save_fails_only_with_IOError "out" (Toy.fresh false) IOError).
  reflexivity.
Defined.

Lemma save_without_stores_leaves_index_file_witness :
  save "out" Toy.unlabelled
  = (Raise IOError, {| self := self Toy.unlabelled; disk := Toy.index_only |}) /\
  fs_read Toy.index_only "out" INDEX_FILE = Ok (FIndex Toy.populated_index).
Proof.
  apply (save_without_stores_leaves_index_file
           "out" Toy.unlabelled Toy.populated_index Toy.index_only).
  - reflexivity.
  - reflexivity.
  - reflexivity.
Defined.

Lemma save_twice_is_save_once_witness :
  save "out" (snd (save "out" Toy.populated_world))
  = (Ok tt, snd (save "out" Toy.populated_world)).
Proof.
  apply (save_twice_is_save_once "out" Toy.populated_world).
  - exact toy_saved_names_distinct.
  - reflexivity.
Defined.

Lemma load_without_label_file_replaces_index_witness :
  load "out" {| self := DataStore_init 2 None; disk := Toy.index_only |}
  = (Raise FileNotFoundError,
     {| self := with_index (DataStore_init 2 None) Toy.populated_index;
        disk := Toy.index_only |}).
Proof.
  apply (load_without_label_file_replaces_index
           "out" {| self := DataStore_init 2 None; disk := Toy.index_only |}
           Toy.populated_index Toy.populated_index FileNotFoundError).
  - reflexivity.
  - reflexivity.
  - reflexivity.
Defined.

Lemma load_without_index_changes_nothing_witness :
  exists e, load "out" (Toy.fresh false) = (Raise e, Toy.fresh false).
Proof.
  apply (load_without_index_changes_nothing "out" (Toy.fresh false)).
  intros b ix H. vm_compute in H. discriminate H.
Defined.

Lemma read_feature_files_without_value_files_raises_witness :
  read_feature_files "feats" 0 (Toy.fresh false)
  = (Raise ValueError, Toy.fresh false).
Proof.
  apply (read_feature_files_without_value_files_raises
           "feats" 0 (Toy.fresh false) (map fst Toy.feats)).
  - reflexivity.
  - reflexivity.
Defined.

Lemma read_feature_files_concatenates_shards_witness :
  exists names shards,
    fs_listdir (disk (Toy.fresh false)) "feats" = Ok names /\
    Forall2 (shard_loaded (disk (Toy.fresh false)) "feats")
            (selected_value_files names 100) shards /\
    Toy.keys = concat (map (fun sh => fst (fst sh)) shards) /\
    Toy.labels = concat (map (fun sh => snd (fst sh)) shards) /\
    Toy.tokens = concat (map snd shards) /\
    Toy.fresh false = Toy.fresh false.
Proof.
  apply (read_feature_files_concatenates_shards
           "feats" 100 (Toy.fresh false) (Toy.fresh false)
           Toy.keys Toy.labels Toy.tokens).
  vm_compute. reflexivity.
Defined.

Lemma read_feature_files_incomplete_shard_raises_witness :
  read_feature_files "feats" 100 Toy.incomplete = (Raise IOError, Toy.incomplete).
Proof.
  apply (read_feature_files_incomplete_shard_raises
           "feats" 100 Toy.incomplete
           ["a_keys.pt"; "a_values.pt"; "a_tokens.pt"; "b_keys.pt"; "b_values.pt"]
           ["a_values.pt"] [] "b_values.pt"
           [([[0; 0]; [1; 0]], [0; 1], [10; 11])]).
  - reflexivity.
  - reflexivity.
  - constructor; [|constructor].
    exists "a". repeat split; reflexivity.
  - exists "b". split; reflexivity.
Defined.

Lemma toy_counts_agree : counts_agree Toy.populated.
Proof. exists Toy.labels, Toy.tokens. repeat split; reflexivity. Qed.

Lemma add_keys_leaves_stores_behind_witness :
  label_id_store
    (self (snd (add_keys [Toy.far_key] Toy.populated_world)))
  = label_id_store Toy.populated /\
  input_id_store
    (self (snd (add_keys [Toy.far_key] Toy.populated_world)))
  = input_id_store Toy.populated /\
  index_ntotal
    (index (self (snd (add_keys [Toy.far_key] Toy.populated_world))))
  = (index_ntotal (index Toy.populated) + 1)%nat /\
  ~ counts_agree
      (self (snd (add_keys [Toy.far_key] Toy.populated_world))).
Proof.
  apply (add_keys_leaves_stores_behind [Toy.far_key] Toy.populated_world).
  - exact toy_index_counts.
  - exact toy_counts_agree.
  - discriminate.
  - reflexivity.
Defined.

Lemma read_features_and_train_without_args_witness :
  read_features_and_train "feats" "out" 100
                          {| self := DataStore_init 2 None; disk := Toy.disk0 |}
  = (Raise AttributeError,
     {| self := with_input_id_store
                  (with_label_id_store (DataStore_init 2 None) Toy.labels)
                  Toy.tokens;
        disk := Toy.disk0 |}).
Proof.
  apply (read_features_and_train_without_args
           "feats" "out" 100
           {| self := DataStore_init 2 None; disk := Toy.disk0 |}
           Toy.keys Toy.labels Toy.tokens).
  - reflexivity.
  - vm_compute. reflexivity.
Defined.

Lemma build_writes_only_its_five_files_witness :
  assoc "feats"
        (disk (snd (read_features_and_train "feats" "out" 100 (Toy.fresh true))))
  = assoc "feats" (disk (Toy.fresh true)) /\
  fs_read (disk (snd (read_features_and_train "feats" "out" 100 (Toy.fresh true))))
          "out" "notes.txt"
  = fs_read (disk (Toy.fresh true)) "out" "notes.txt".
Proof.
  apply (build_writes_only_its_five_files
           "feats" "out" 100 (Toy.fresh true) "feats" "notes.txt").
  - discriminate.
  - simpl. intuition discriminate.
Defined.

Lemma build_then_load_preserves_search_witness :
  exists w2,
    load "out"
         {| self := DataStore_init 2 None;
            disk := disk (snd (read_features_and_train "feats" "out" 100
                                                       (Toy.fresh true))) |}
    = (Ok tt, w2) /\
    forall (v : Z) (query : list Vec) (k : Z) (T : R),
      search_k (self (snd (set_vocab_size v w2))) query k T
      = search_k
          (self (snd (set_vocab_size
                        v (snd (read_features_and_train "feats" "out" 100
                                                        (Toy.fresh true))))))
          query k T.
Proof.
  apply (build_then_load_preserves_search
           "feats" "out" 100 (Toy.fresh true)
           (snd (read_features_and_train "feats" "out" 100 (Toy.fresh true)))
           2 None).
  - exact toy_serialization_faithful.
  - exact toy_saved_names_distinct.
  - vm_compute. reflexivity.
Defined.

